(** * Sleep temperature monitor: classifier and alert scheduler

    A shallow embedding of [The_arduino_temp_code.cpp]: the comfort-state
    classifier [evaluateState], the alert scheduler [playAlert], the mute
    button [checkButton], the sensor read [readSensors] and the polling
    [loop], with the properties the specification states about them. *)

From Stdlib Require Import ZArith QArith Qpower Qabs Lqa Bool List String Lia.
From Stdlib Require Import Floats.SpecFloat.
Import ListNotations.

Local Open Scope Z_scope.

(** ** The [float] type of the board: IEEE 754 binary32

    A [float] is a [spec_float]; the values the hardware can hold are the
    ones accepted by [valid_float]. *)

Module Float32.

Definition prec : Z := 24.
Definition emax : Z := 128.

Definition float : Type := spec_float.

Definition valid_float (x : float) : bool := valid_binary prec emax x.

Definition is_finite (x : float) : bool :=
  match x with
  | S754_zero _ | S754_finite _ _ _ => true
  | S754_infinity _ | S754_nan => false
  end.

Definition isnan (x : float) : bool :=
  match x with
  | S754_nan => true
  | _ => false
  end.

(** Conversion of an integer constant to [float], as the compiler inserts
    it when a [float] is compared with an [int] macro. *)
Definition of_int (n : Z) : float := binary_normalize prec emax n 0 false.

(** The binary32 nearest to [n / d], for [n] and [d] that are binary32
    values themselves: a correctly rounded division. *)
Definition of_ratio (n d : Z) : float := SFdiv prec emax (of_int n) (of_int d).

(** C comparison operators: all of them are false on NaN. *)
Definition feq (x y : float) : bool := SFeqb x y.
Definition flt (x y : float) : bool := SFltb x y.
Definition fle (x y : float) : bool := SFleb x y.
Definition fgt (x y : float) : bool := SFltb y x.
Definition fge (x y : float) : bool := SFleb y x.

(** The rational a finite float denotes ([0] on the non-finite ones). *)
Definition to_Q (x : float) : Q :=
  match x with
  | S754_finite s m e => (inject_Z (cond_Zopp s (Zpos m)) * 2 ^ e)%Q
  | _ => 0%Q
  end.

(** A finite binary32 value scaled by [2^149]: an integer, since the
    least exponent of the format is [-149]. *)
Definition scaled (x : float) : Z :=
  match x with
  | S754_finite s m e => cond_Zopp s (Zpos m * 2 ^ (e + 149))
  | _ => 0
  end.

End Float32.

Import Float32.

(** ** Constants of the sketch *)

Definition BUZZER_PIN : Z := 8.
Definition BUTTON_PIN : Z := 2.
Definition ALERT_INTERVAL : Z := 5000.
Definition SERIAL_REFRESH : Z := 1000.

Definition TEMP_OPTIMAL_LOW : Z := 22.
Definition TEMP_OPTIMAL_HIGH : Z := 24.
Definition TEMP_NEAR_LOW : Z := 20.
Definition TEMP_NEAR_HIGH : Z := 26.
Definition TEMP_CLOSE : Z := 25.

(** [unsigned long] is 32 bits wide on the board: arithmetic wraps. *)
Definition ulong (z : Z) : Z := z mod 2 ^ 32.
Arguments ulong : simpl never.

(** ** Program state *)

Inductive AlertState : Type := IDLE | OPTIMAL | CLOSE | NEAR | MUTE.

Definition AlertState_eqb (a b : AlertState) : bool :=
  match a, b with
  | IDLE, IDLE | OPTIMAL, OPTIMAL | CLOSE, CLOSE | NEAR, NEAR | MUTE, MUTE => true
  | _, _ => false
  end.

Record Globals : Type := mkGlobals {
  currentState : AlertState;
  systemMuted : bool;
  lastAlertTime : Z;
  lastSerialUpdate : Z
}.

(** The globals as their initialisers leave them. *)
Definition initial : Globals :=
  {| currentState := IDLE; systemMuted := false;
     lastAlertTime := 0; lastSerialUpdate := 0 |}.

(** ** The collaborators

    Every call of the sketch into the Arduino core or the DHT library is an
    [Event]; calls that return a value carry the value returned. *)

Inductive Level : Type := LOW | HIGH.
Inductive PinMode : Type := OUTPUT | INPUT_PULLUP.

Definition Level_eqb (a b : Level) : bool :=
  match a, b with
  | LOW, LOW | HIGH, HIGH => true
  | _, _ => false
  end.

Inductive Event : Type :=
| EPinMode (pin : Z) (mode : PinMode)
| ESerialBegin (baud : Z)
| EDhtBegin
| EDigitalRead (pin : Z) (v : Level)
| EReadTemperature (v : float)
| EReadHumidity (v : float)
| EMillis (v : Z)
| EPrint (s : string)
| EPrintFloat (v : float)
| EPrintln (s : string)
| ETone (pin freq : Z) (duration : option Z)
| ENoTone (pin : Z)
| EDelay (ms : Z).

(** What the outside world answers during one pass of [loop]: the level of
    the button pin, the two sensor channels, and the clock at the two
    places where [millis] is called. A field is consulted only if the
    pass reaches the call. *)
Record Inputs : Type := mkInputs {
  button : Level;
  dht_temperature : float;
  dht_humidity : float;
  clock_loop : Z;
  clock_alert : Z
}.

(** ** A state-and-trace monad for the sketch *)

Definition M (A : Type) : Type := Globals -> A * Globals * list Event.

Definition ret {A : Type} (a : A) : M A := fun g => (a, g, []).

Definition bind {A B : Type} (m : M A) (k : A -> M B) : M B :=
  fun g =>
    let '(a, g1, t1) := m g in
    let '(b, g2, t2) := k a g1 in
    (b, g2, t1 ++ t2).

Declare Scope sketch_scope.
Delimit Scope sketch_scope with sketch.
Notation "x <- m ;; k" := (bind m (fun x => k))
  (at level 61, m at next level, right associativity) : sketch_scope.
Notation "m ;; k" := (bind m (fun _ => k))
  (at level 61, right associativity) : sketch_scope.
Local Open Scope sketch_scope.

Definition emit (e : Event) : M unit := fun g => (tt, g, [e]).
Definition read {A : Type} (field : Globals -> A) : M A := fun g => (field g, g, []).

Definition set_currentState (v : AlertState) : M unit :=
  fun g => (tt, mkGlobals v (systemMuted g) (lastAlertTime g) (lastSerialUpdate g), []).
Definition set_systemMuted (v : bool) : M unit :=
  fun g => (tt, mkGlobals (currentState g) v (lastAlertTime g) (lastSerialUpdate g), []).
Definition set_lastAlertTime (v : Z) : M unit :=
  fun g => (tt, mkGlobals (currentState g) (systemMuted g) v (lastSerialUpdate g), []).
Definition set_lastSerialUpdate (v : Z) : M unit :=
  fun g => (tt, mkGlobals (currentState g) (systemMuted g) (lastAlertTime g) v, []).

(** Field updates, for stating what a computation changed. *)
Definition with_currentState (g : Globals) (v : AlertState) : Globals :=
  mkGlobals v (systemMuted g) (lastAlertTime g) (lastSerialUpdate g).
Definition with_systemMuted (g : Globals) (v : bool) : Globals :=
  mkGlobals (currentState g) v (lastAlertTime g) (lastSerialUpdate g).
Definition with_lastAlertTime (g : Globals) (v : Z) : Globals :=
  mkGlobals (currentState g) (systemMuted g) v (lastSerialUpdate g).
Definition with_lastSerialUpdate (g : Globals) (v : Z) : Globals :=
  mkGlobals (currentState g) (systemMuted g) (lastAlertTime g) v.

(** Globals and events a computation leaves behind. *)
Definition after {A : Type} (m : M A) (g : Globals) : Globals := snd (fst (m g)).
Definition events {A : Type} (m : M A) (g : Globals) : list Event := snd (m g).
Definition value {A : Type} (m : M A) (g : Globals) : A := fst (fst (m g)).

(** Calls without a result. *)
Definition pinMode (pin : Z) (mode : PinMode) : M unit := emit (EPinMode pin mode).
Definition Serial_begin (baud : Z) : M unit := emit (ESerialBegin baud).
Definition dht_begin : M unit := emit EDhtBegin.
Definition Serial_print (s : string) : M unit := emit (EPrint s).
Definition Serial_print_float (v : float) : M unit := emit (EPrintFloat v).
Definition Serial_println (s : string) : M unit := emit (EPrintln s).
Definition tone (pin freq : Z) (duration : option Z) : M unit := emit (ETone pin freq duration).
Definition noTone (pin : Z) : M unit := emit (ENoTone pin).
Definition delay (ms : Z) : M unit := emit (EDelay ms).

(** Calls with a result: the answer comes from the pass's [Inputs]. *)
Definition digitalRead (pin : Z) (answer : Level) : M Level :=
  fun g => (answer, g, [EDigitalRead pin answer]).
Definition dht_readTemperature (answer : float) : M float :=
  fun g => (answer, g, [EReadTemperature answer]).
Definition dht_readHumidity (answer : float) : M float :=
  fun g => (answer, g, [EReadHumidity answer]).
Definition millis (answer : Z) : M Z :=
  fun g => (answer, g, [EMillis answer]).

(** ** The sketch *)

Definition msg_ready : string := "✅ System Ready: Monitoring Sleep Environment".
Definition msg_muted : string := "🛑 ALERTS MUTED BY USER".
Definition msg_sensor_error : string := "⚠️ ERROR: Failed to read from DHT11".
Definition msg_optimal : string := "🎵 Optimal Temp: Perfect for sleep.".
Definition msg_close : string := "🔊 Close: Temp is 25°C.".
Definition msg_near : string := "🔔 Near Optimal: Prepare to sleep.".
Definition msg_silent : string := "🔕 SYSTEM IS IN SILENT MODE".

Definition printHeader : M unit :=
  Serial_println "==========================================" ;;
  Serial_println "😴 Sleep Temp & Humidity Monitor - v1.0 😴" ;;
  Serial_println "==========================================".

Definition printDivider : M unit :=
  Serial_println "------------------------------------------".

Definition showMutedMessage : M unit := Serial_println msg_silent.

Definition soundChime : M unit := tone BUZZER_PIN 1500 (Some 200).

Definition soundBeep : M unit := tone BUZZER_PIN 1000 (Some 200).

Definition soundLongBeep : M unit :=
  tone BUZZER_PIN 1000 None ;;
  delay 5000 ;;
  noTone BUZZER_PIN.

Definition stopAlerts : M unit := noTone BUZZER_PIN.

Definition initializeSystem : M unit :=
  pinMode BUZZER_PIN OUTPUT ;;
  pinMode BUTTON_PIN INPUT_PULLUP ;;
  Serial_begin 9600 ;;
  dht_begin ;;
  printHeader ;;
  Serial_println msg_ready ;;
  printDivider.

Definition setup : M unit := initializeSystem.

Definition updateDashboard (temp humidity : float) : M unit :=
  printDivider ;;
  Serial_print "🌡️ Temperature: " ;;
  Serial_print_float temp ;;
  Serial_print " °C  |  💧 Humidity: " ;;
  Serial_print_float humidity ;;
  Serial_println " %" ;;
  printDivider.

Definition evaluateState (temp : float) : M unit :=
  if fge temp (of_int TEMP_OPTIMAL_LOW) && fle temp (of_int TEMP_OPTIMAL_HIGH) then
    set_currentState OPTIMAL
  else if feq temp (of_int TEMP_CLOSE) then
    set_currentState CLOSE
  else if (fge temp (of_int TEMP_NEAR_LOW) && flt temp (of_int TEMP_OPTIMAL_LOW))
          || (fgt temp (of_int TEMP_OPTIMAL_HIGH) && fle temp (of_int TEMP_NEAR_HIGH)) then
    set_currentState NEAR
  else
    set_currentState IDLE.

Section Pass.

(** The answers of the collaborators during this pass. *)
Variable env : Inputs.

Definition checkButton : M unit :=
  v <- digitalRead BUTTON_PIN (button env) ;;
  if Level_eqb v LOW then
    set_systemMuted true ;;
    Serial_println msg_muted ;;
    printDivider
  else ret tt.

(** The two reference parameters are returned as a pair. The [return]
    of the failure branch leaves [readSensors] only. *)
Definition readSensors : M (float * float) :=
  temp <- dht_readTemperature (dht_temperature env) ;;
  humidity <- dht_readHumidity (dht_humidity env) ;;
  if isnan temp || isnan humidity then
    Serial_println msg_sensor_error ;;
    delay 2000 ;;
    ret (temp, humidity)
  else ret (temp, humidity).

Definition playAlert (state : AlertState) : M unit :=
  now <- millis (clock_alert env) ;;
  last <- read lastAlertTime ;;
  if AlertState_eqb state OPTIMAL && (ulong (now - last) >=? ALERT_INTERVAL) then
    soundChime ;;
    Serial_println msg_optimal ;;
    set_lastAlertTime now
  else if AlertState_eqb state CLOSE && (ulong (now - last) >=? ALERT_INTERVAL) then
    soundBeep ;;
    Serial_println msg_close ;;
    set_lastAlertTime now
  else if AlertState_eqb state NEAR then
    Serial_println msg_near ;;
    soundLongBeep ;;
    set_lastAlertTime now
  else if AlertState_eqb state IDLE then
    noTone BUZZER_PIN
  else ret tt.

Definition loop : M unit :=
  checkButton ;;
  muted <- read systemMuted ;;
  if muted then
    stopAlerts ;;
    showMutedMessage ;;
    delay 500
  else
    th <- readSensors ;;
    let '(temperature, humidity) := th in
    now <- millis (clock_loop env) ;;
    last <- read lastSerialUpdate ;;
    (if ulong (now - last) >=? SERIAL_REFRESH then
       updateDashboard temperature humidity ;;
       set_lastSerialUpdate now
     else ret tt) ;;
    evaluateState temperature ;;
    state <- read currentState ;;
    playAlert state ;;
    delay 300.

End Pass.

(** The sketch runs [setup] once and then [loop] for ever; [run] is any
    finite number of passes, one [Inputs] per pass. *)
Fixpoint run (inputs : list Inputs) : M unit :=
  match inputs with
  | [] => ret tt
  | env :: rest => loop env ;; run rest
  end.

Definition sketch (inputs : list Inputs) : M unit := setup ;; run inputs.

(** ** Observations on traces *)

Definition is_tone (e : Event) : bool :=
  match e with
  | ETone _ _ _ => true
  | _ => false
  end.

(** An alert fired if the buzzer was started. *)
Definition fired (evs : list Event) : bool := existsb is_tone evs.

Definition pressed (env : Inputs) : bool := Level_eqb (button env) LOW.

(** A falling edge of the active-low button: released at the previous
    read, pressed at this one. *)
Definition falling_edge (previous current : Level) : bool :=
  Level_eqb previous HIGH && Level_eqb current LOW.

(** The flag an edge detector would keep: it latches at the first
    falling edge of the levels read and never lets go. *)
Fixpoint edge_latch (previous : Level) (flag : bool) (reads : list Level) : bool :=
  match reads with
  | [] => flag
  | v :: rest => edge_latch v (flag || falling_edge previous v) rest
  end.

(** The mute flag after each pass of a run, and how often a sequence of
    flag values goes from false to true or from true to false. *)
Fixpoint flag_trace (inputs : list Inputs) (g : Globals) : list bool :=
  match inputs with
  | [] => []
  | env :: rest =>
      systemMuted (after (loop env) g) :: flag_trace rest (after (loop env) g)
  end.

Fixpoint rises (previous : bool) (trace : list bool) : nat :=
  match trace with
  | [] => 0%nat
  | b :: rest => ((if negb previous && b then 1 else 0) + rises b rest)%nat
  end.

Fixpoint falls (previous : bool) (trace : list bool) : nat :=
  match trace with
  | [] => 0%nat
  | b :: rest => ((if previous && negb b then 1 else 0) + falls b rest)%nat
  end.

(** The clock values a run is answered with, in the order of the calls,
    and what it is for them to come from a monotonic clock that starts
    at zero or later. *)
Definition clock_readings (inputs : list Inputs) : list Z :=
  flat_map (fun env => [clock_loop env; clock_alert env]) inputs.

Fixpoint nondecreasing_from (start : Z) (readings : list Z) : Prop :=
  match readings with
  | [] => True
  | t :: rest => start <= t /\ nondecreasing_from t rest
  end.

Definition monotonic_clock (inputs : list Inputs) : Prop :=
  nondecreasing_from 0 (clock_readings inputs).

(** Calls that only the sensor read, the dashboard gate and the scheduler
    make. *)
Definition reads_sensor_or_clock (e : Event) : bool :=
  match e with
  | EReadTemperature _ | EReadHumidity _ | EMillis _ => true
  | _ => false
  end.

(** Sample passes: a pass at clock [t] with the button released, and one
    with the button held down. *)
Definition pass_at (t : Z) (temp humidity : float) : Inputs :=
  mkInputs HIGH temp humidity t (t + 1).
Definition press_at (t : Z) : Inputs :=
  mkInputs LOW (of_int 23) (of_int 50) t (t + 1).

(** Sample runs: one pass at 23 degrees that fires the Optimal chime, and
    one at 21 degrees a second later; a press of the button; the button
    held down over two passes. *)
Definition optimal_pass : Inputs := pass_at 6000 (of_int 23) (of_int 50).
Definition near_pass : Inputs := pass_at 7000 (of_int 21) (of_int 50).
Definition after_optimal_pass : Globals := after (sketch [optimal_pass]) initial.
Definition after_press : Globals := after (sketch [press_at 1000]) initial.
Definition held_two_passes : list Inputs := [press_at 1000; press_at 1500].

(** Invalid samples: not-a-number on the temperature channel, and on
    the humidity channel next to a temperature of 21 degrees. *)
Definition bad_temperature_pass : Inputs := pass_at 7000 S754_nan (of_int 50).
Definition bad_humidity_pass : Inputs := pass_at 7000 (of_int 21) S754_nan.

(** Decimal literals used by the specification's examples. *)
Definition literal_25_0 : float := of_ratio 250 10.
Definition literal_25_0001 : float := of_ratio 250001 10000.

(** ** Further observations on traces *)

Definition count_events (p : Event -> bool) (evs : list Event) : nat :=
  List.length (filter p evs).

(** Only [updateDashboard] prints numbers. *)
Definition is_reading (e : Event) : bool :=
  match e with
  | EPrintFloat _ => true
  | _ => false
  end.

Definition dashboard_shown (evs : list Event) : bool := existsb is_reading evs.

Definition is_sensor_warning (e : Event) : bool :=
  match e with
  | EPrintln s => String.eqb s msg_sensor_error
  | _ => false
  end.

Definition is_button_read (e : Event) : bool :=
  match e with
  | EDigitalRead _ _ => true
  | _ => false
  end.

Definition is_sensor_read (e : Event) : bool :=
  match e with
  | EReadTemperature _ | EReadHumidity _ => true
  | _ => false
  end.

Definition is_buzzer_call (e : Event) : bool :=
  match e with
  | ETone _ _ _ | ENoTone _ => true
  | _ => false
  end.

(** A tone with a duration: the chime of [soundChime] and the beep of
    [soundBeep]; the long beep has none. *)
Definition is_timed_tone (e : Event) : bool :=
  match e with
  | ETone _ _ (Some _) => true
  | _ => false
  end.

Definition chimed (evs : list Event) : bool := existsb is_timed_tone evs.

(** Milliseconds spent in [delay]. *)
Definition delay_total (evs : list Event) : Z :=
  fold_right (fun e acc => match e with EDelay ms => ms + acc | _ => acc end) 0 evs.

(** Whether a tone started without a duration is still waiting for its
    [noTone] at the end of a trace. *)
Definition open_tone (start : bool) (evs : list Event) : bool :=
  fold_left (fun pending e =>
               match e with
               | ETone _ _ None => true
               | ENoTone _ => false
               | _ => pending
               end) evs start.

(** The calls a pass may make: the buzzer pin with one of the three
    tones of the sketch, the button pin, printing, waiting, the sensor
    and the clock; pins and ports are configured by [setup] only. *)
Definition pass_call (e : Event) : bool :=
  match e with
  | ETone pin freq (Some ms) =>
      (pin =? BUZZER_PIN) && (ms =? 200) && ((freq =? 1500) || (freq =? 1000))
  | ETone pin freq None => (pin =? BUZZER_PIN) && (freq =? 1000)
  | ENoTone pin => pin =? BUZZER_PIN
  | EDigitalRead pin _ => pin =? BUTTON_PIN
  | EPinMode _ _ | ESerialBegin _ | EDhtBegin => false
  | _ => true
  end.

(** The passes of a run that started a tone: the scheduler's clock value
    and whether the tone was one of the two gated ones. *)
Fixpoint fire_log (inputs : list Inputs) (g : Globals) : list (Z * bool) :=
  match inputs with
  | [] => []
  | env :: rest =>
      (if fired (events (loop env) g)
       then [(clock_alert env, chimed (events (loop env) g))]
       else [])
      ++ fire_log rest (after (loop env) g)
  end.

(** Every gated alert of a log comes at least the interval after the
    alert before it, of whatever kind. *)
Fixpoint spaced (previous : Z) (log : list (Z * bool)) : Prop :=
  match log with
  | [] => True
  | (t, gated) :: rest =>
      (gated = true -> previous + ALERT_INTERVAL <= t) /\ spaced t rest
  end.

(** The passes of a run that printed the dashboard, by the clock value
    read in [loop]; and a log whose entries are at least an interval
    apart. *)
Fixpoint refresh_log (inputs : list Inputs) (g : Globals) : list Z :=
  match inputs with
  | [] => []
  | env :: rest =>
      (if dashboard_shown (events (loop env) g) then [clock_loop env] else [])
      ++ refresh_log rest (after (loop env) g)
  end.

Fixpoint apart (interval previous : Z) (log : list Z) : Prop :=
  match log with
  | [] => True
  | t :: rest => previous + interval <= t /\ apart interval t rest
  end.

(** A clock that has not wrapped: all readings fit an [unsigned long]. *)
Definition clock_in_range (inputs : list Inputs) : Prop :=
  Forall (fun t => t < 2 ^ 32) (clock_readings inputs).

(** A pass reaches the sensor when the flag is clear and the button is
    released. *)
Definition unmuted_pass (env : Inputs) (g : Globals) : bool :=
  negb (systemMuted g || pressed env).

(** Sample passes for the examples: a second optimal pass three seconds
    after the first, a pass with an infinite temperature. *)
Definition optimal_pass_again : Inputs := pass_at 9000 (of_int 23) (of_int 50).
Definition humid_near_pass : Inputs := pass_at 7000 (of_int 21) (of_int 80).
Definition infinite_pass : Inputs := pass_at 7000 (S754_infinity false) (of_int 50).

(** ** Facts on binary32 comparison *)

Module Float32Facts.

Lemma digits2_pos_bounds (m : positive) :
  2 ^ (Zpos (digits2_pos m) - 1) <= Zpos m < 2 ^ Zpos (digits2_pos m).
Proof.
  induction m as [p IH | p IH | ]; cbn [digits2_pos].
  - rewrite Pos2Z.inj_succ.
    replace (Z.succ (Zpos (digits2_pos p)) - 1) with (Z.succ (Zpos (digits2_pos p) - 1)) by lia.
    rewrite !Z.pow_succ_r by lia. lia.
  - rewrite Pos2Z.inj_succ.
    replace (Z.succ (Zpos (digits2_pos p)) - 1) with (Z.succ (Zpos (digits2_pos p) - 1)) by lia.
    rewrite !Z.pow_succ_r by lia. lia.
  - cbn. lia.
Qed.

Lemma bounded_inv (m : positive) (e : Z) :
  bounded prec emax m e = true ->
  -149 <= e <= 104 /\
  2 * Zpos m < 2 ^ 25 /\
  (2 ^ 23 <= Zpos m \/ e = -149).
Proof.
  unfold bounded, canonical_mantissa, fexp, emin, prec, emax.
  intros H. apply andb_prop in H. destruct H as [Hc Hb].
  apply Z.eqb_eq in Hc. apply Z.leb_le in Hb.
  pose proof (digits2_pos_bounds m) as [Hlo Hhi].
  assert (Hd : Zpos (digits2_pos m) <= 24) by lia.
  split; [lia|]. split.
  - assert (2 ^ Zpos (digits2_pos m) <= 2 ^ 24)
      by (apply Z.pow_le_mono_r; lia).
    change (2 ^ 25) with (2 * 2 ^ 24). lia.
  - destruct (Z.eq_dec e (-149)) as [-> | Hne]; [now right | left].
    assert (Zpos (digits2_pos m) = 24) as Heq by lia.
    rewrite Heq in Hlo. exact Hlo.
Qed.

Lemma canonical_lt (m1 m2 : positive) (e1 e2 : Z) :
  bounded prec emax m1 e1 = true ->
  bounded prec emax m2 e2 = true ->
  e1 < e2 ->
  Zpos m1 * 2 ^ (e1 + 149) < Zpos m2 * 2 ^ (e2 + 149).
Proof.
  intros H1 H2 Hlt.
  apply bounded_inv in H1. apply bounded_inv in H2.
  destruct H1 as (He1 & Hm1 & _). destruct H2 as (He2 & _ & Hm2).
  destruct Hm2 as [Hm2 | ->]; [| lia].
  assert (Hp : 0 < 2 ^ (e1 + 149)) by (apply Z.pow_pos_nonneg; lia).
  assert (Hstep : 2 * 2 ^ (e1 + 149) <= 2 ^ (e2 + 149)).
  { rewrite <- Z.pow_succ_r by lia. apply Z.pow_le_mono_r; lia. }
  change (2 ^ 25) with (2 * 2 ^ 24) in Hm1.
  change (2 ^ 23) with 8388608 in Hm2. change (2 ^ 24) with 16777216 in Hm1.
  nia.
Qed.

Lemma compare_pos (m1 m2 : positive) (e1 e2 : Z) :
  bounded prec emax m1 e1 = true ->
  bounded prec emax m2 e2 = true ->
  match e1 ?= e2 with
  | Lt => Lt
  | Gt => Gt
  | Eq => Pos.compare_cont Eq m1 m2
  end = (Zpos m1 * 2 ^ (e1 + 149) ?= Zpos m2 * 2 ^ (e2 + 149)).
Proof.
  intros H1 H2. destruct (Z.compare_spec e1 e2) as [-> | Hlt | Hgt].
  - pose proof (bounded_inv _ _ H2) as (He & _).
    assert (Hp : 0 < 2 ^ (e2 + 149)) by (apply Z.pow_pos_nonneg; lia).
    change (Pos.compare_cont Eq m1 m2) with (Zpos m1 ?= Zpos m2).
    apply Zmult_compare_compat_r. lia.
  - symmetry. apply Z.compare_lt_iff. now apply canonical_lt.
  - symmetry. apply Z.compare_gt_iff. now apply canonical_lt.
Qed.

(** [SFcompare] on valid finite values is the order of the scaled
    integers. *)
Lemma SFcompare_scaled (x y : float) :
  valid_float x = true -> valid_float y = true ->
  is_finite x = true -> is_finite y = true ->
  SFcompare x y = Some (scaled x ?= scaled y).
Proof.
  destruct x as [sx | sx | | sx mx ex]; try discriminate;
    destruct y as [sy | sy | | sy my ey]; try discriminate;
    cbn [valid_float valid_binary is_finite SFcompare scaled];
    intros Hx Hy _ _.
  - reflexivity.
  - pose proof (bounded_inv _ _ Hy) as (He & _).
    assert (0 < 2 ^ (ey + 149)) by (apply Z.pow_pos_nonneg; lia).
    f_equal. symmetry. destruct sy; cbn [cond_Zopp].
    + apply Z.compare_gt_iff. nia.
    + apply Z.compare_lt_iff. nia.
  - pose proof (bounded_inv _ _ Hx) as (He & _).
    assert (0 < 2 ^ (ex + 149)) by (apply Z.pow_pos_nonneg; lia).
    f_equal. symmetry. destruct sx; cbn [cond_Zopp].
    + apply Z.compare_lt_iff. nia.
    + apply Z.compare_gt_iff. nia.
  - pose proof (bounded_inv _ _ Hx) as (Hex & _).
    pose proof (bounded_inv _ _ Hy) as (Hey & _).
    assert (0 < 2 ^ (ex + 149)) by (apply Z.pow_pos_nonneg; lia).
    assert (0 < 2 ^ (ey + 149)) by (apply Z.pow_pos_nonneg; lia).
    f_equal. destruct sx, sy; cbn [cond_Zopp].
    + rewrite Z.compare_opp.
      rewrite <- (compare_pos my mx ey ex Hy Hx).
      rewrite (Z.compare_antisym ex ey).
      destruct (ex ?= ey); cbn [CompOpp]; try reflexivity.
      apply (Pos.compare_cont_antisym mx my Eq).
    + symmetry. apply Z.compare_lt_iff. nia.
    + symmetry. apply Z.compare_gt_iff. nia.
    + now apply compare_pos.
Qed.

(** The scaled integer is the denoted rational times [2^149]. *)
Lemma to_Q_scaled (x : float) :
  valid_float x = true ->
  (to_Q x == inject_Z (scaled x) * 2 ^ (-149))%Q.
Proof.
  destruct x as [sx | sx | | sx mx ex]; cbn [valid_float valid_binary to_Q scaled];
    intros Hx; try reflexivity.
  pose proof (bounded_inv _ _ Hx) as (He & _).
  replace (cond_Zopp sx (Zpos mx * 2 ^ (ex + 149)))
    with (cond_Zopp sx (Zpos mx) * 2 ^ (ex + 149))
    by (destruct sx; cbn [cond_Zopp]; ring).
  rewrite inject_Z_mult, Zpower_Qpower by lia.
  rewrite <- Qmult_assoc, <- Qpower_plus by discriminate.
  replace (ex + 149 + -149) with ex by ring.
  reflexivity.
Qed.

Lemma Qcompare_mult_r (a b k : Q) :
  (0 < k)%Q -> (a * k ?= b * k)%Q = (a ?= b)%Q.
Proof.
  intros Hk. destruct (Qcompare_spec a b) as [Heq | Hlt | Hgt].
  - apply Qeq_alt. now rewrite Heq.
  - apply Qlt_alt. now apply Qmult_lt_r.
  - apply Qgt_alt. now apply Qmult_lt_r.
Qed.

Lemma Qcompare_inject_Z (a b : Z) :
  (inject_Z a ?= inject_Z b)%Q = (a ?= b).
Proof.
  unfold Qcompare, inject_Z; cbn [Qnum Qden]. now rewrite !Z.mul_1_r.
Qed.

(** [SFcompare] on valid finite values is the order of the rationals
    they denote. *)
Lemma SFcompare_to_Q (x y : float) :
  valid_float x = true -> valid_float y = true ->
  is_finite x = true -> is_finite y = true ->
  SFcompare x y = Some (to_Q x ?= to_Q y)%Q.
Proof.
  intros Hx Hy Fx Fy.
  rewrite (SFcompare_scaled x y Hx Hy Fx Fy). f_equal.
  rewrite (to_Q_scaled x Hx), (to_Q_scaled y Hy).
  rewrite Qcompare_mult_r by reflexivity.
  symmetry. apply Qcompare_inject_Z.
Qed.

Section Operators.
Variables x y : float.
Hypothesis Hx : valid_float x = true.
Hypothesis Hy : valid_float y = true.
Hypothesis Fx : is_finite x = true.
Hypothesis Fy : is_finite y = true.

Lemma fle_to_Q : fle x y = true <-> (to_Q x <= to_Q y)%Q.
Proof.
  unfold fle, SFleb. rewrite (SFcompare_to_Q x y Hx Hy Fx Fy).
  rewrite Qle_alt. destruct (to_Q x ?= to_Q y)%Q; split; congruence.
Qed.

Lemma flt_to_Q : flt x y = true <-> (to_Q x < to_Q y)%Q.
Proof.
  unfold flt, SFltb. rewrite (SFcompare_to_Q x y Hx Hy Fx Fy).
  rewrite Qlt_alt. destruct (to_Q x ?= to_Q y)%Q; split; congruence.
Qed.

Lemma feq_to_Q : feq x y = true <-> (to_Q x == to_Q y)%Q.
Proof.
  unfold feq, SFeqb. rewrite (SFcompare_to_Q x y Hx Hy Fx Fy).
  rewrite Qeq_alt. destruct (to_Q x ?= to_Q y)%Q; split; congruence.
Qed.

Lemma fle_false : fle x y = false <-> (to_Q y < to_Q x)%Q.
Proof.
  rewrite <- not_true_iff_false, fle_to_Q. split.
  - apply Qnot_le_lt.
  - apply Qlt_not_le.
Qed.

Lemma flt_false : flt x y = false <-> (to_Q y <= to_Q x)%Q.
Proof.
  rewrite <- not_true_iff_false, flt_to_Q. split.
  - apply Qnot_lt_le.
  - apply Qle_not_lt.
Qed.

Lemma feq_false : feq x y = false <-> ~ (to_Q x == to_Q y)%Q.
Proof. now rewrite <- not_true_iff_false, feq_to_Q. Qed.
End Operators.

Lemma fge_to_Q (x y : float) :
  valid_float x = true -> valid_float y = true ->
  is_finite x = true -> is_finite y = true ->
  fge x y = true <-> (to_Q y <= to_Q x)%Q.
Proof. intros; unfold fge; now apply fle_to_Q. Qed.

Lemma fgt_to_Q (x y : float) :
  valid_float x = true -> valid_float y = true ->
  is_finite x = true -> is_finite y = true ->
  fgt x y = true <-> (to_Q y < to_Q x)%Q.
Proof. intros; unfold fgt; now apply flt_to_Q. Qed.

End Float32Facts.

(** ** The classifier *)

Module Classifier.
Import Float32Facts.

Section Finite.
Variable t : float.
Hypothesis Hv : valid_float t = true.
Hypothesis Hf : is_finite t = true.

(** Each comparison of [evaluateState], read on the denoted rational. *)
Ltac on_Q :=
  repeat match goal with
  | E : fge t ?c = true |- _ => apply (fle_to_Q c t eq_refl Hv eq_refl Hf) in E
  | E : fge t ?c = false |- _ => apply (fle_false c t eq_refl Hv eq_refl Hf) in E
  | E : fle t ?c = true |- _ => apply (fle_to_Q t c Hv eq_refl Hf eq_refl) in E
  | E : fle t ?c = false |- _ => apply (fle_false t c Hv eq_refl Hf eq_refl) in E
  | E : fgt t ?c = true |- _ => apply (flt_to_Q c t eq_refl Hv eq_refl Hf) in E
  | E : fgt t ?c = false |- _ => apply (flt_false c t eq_refl Hv eq_refl Hf) in E
  | E : flt t ?c = true |- _ => apply (flt_to_Q t c Hv eq_refl Hf eq_refl) in E
  | E : flt t ?c = false |- _ => apply (flt_false t c Hv eq_refl Hf eq_refl) in E
  | E : feq t ?c = true |- _ => apply (feq_to_Q t c Hv eq_refl Hf eq_refl) in E
  | E : feq t ?c = false |- _ => apply (feq_false t c Hv eq_refl Hf eq_refl) in E
  end;
  repeat match goal with
  | H : context [to_Q (of_int ?c)] |- _ =>
      let q := eval vm_compute in (to_Q (of_int c)) in
      change (to_Q (of_int c)) with q in H
  end.

Lemma evaluateState_table (g : Globals) :
  let q := to_Q t in
  let st := currentState (after (evaluateState t) g) in
  (st = OPTIMAL <-> (22 <= q /\ q <= 24)%Q) /\
  (st = CLOSE <-> (q == 25)%Q) /\
  (st = NEAR <->
     ((20 <= q /\ q < 22) \/ (24 < q /\ q <= 26))%Q /\ ~ (q == 25)%Q) /\
  (st = IDLE <-> (q < 20 \/ 26 < q)%Q).
Proof.
  cbv zeta. unfold evaluateState.
  destruct (fge t (of_int TEMP_OPTIMAL_LOW)) eqn:E1;
    destruct (fle t (of_int TEMP_OPTIMAL_HIGH)) eqn:E2;
    destruct (feq t (of_int TEMP_CLOSE)) eqn:E3;
    destruct (fge t (of_int TEMP_NEAR_LOW)) eqn:E4;
    destruct (flt t (of_int TEMP_OPTIMAL_LOW)) eqn:E5;
    destruct (fgt t (of_int TEMP_OPTIMAL_HIGH)) eqn:E6;
    destruct (fle t (of_int TEMP_NEAR_HIGH)) eqn:E7;
    cbn; on_Q;
    (repeat apply conj; intros;
     first [reflexivity | discriminate | lra | exfalso; lra]).
Qed.
End Finite.

End Classifier.

(** ** The monad and the primitive functions *)

Lemma after_bind {A B : Type} (m : M A) (k : A -> M B) (g : Globals) :
  after (bind m k) g = after (k (value m g)) (after m g).
Proof.
  unfold after, value, bind. destruct (m g) as [[a g1] t1]. cbn.
  now destruct (k a g1) as [[b g2] t2].
Qed.

Lemma events_bind {A B : Type} (m : M A) (k : A -> M B) (g : Globals) :
  events (bind m k) g = events m g ++ events (k (value m g)) (after m g).
Proof.
  unfold events, after, value, bind. destruct (m g) as [[a g1] t1]. cbn.
  now destruct (k a g1) as [[b g2] t2].
Qed.

Lemma M_unit_eq (m : M unit) (g : Globals) :
  m g = (tt, after m g, events m g).
Proof. unfold after, events. now destruct (m g) as [[[] g1] t1]. Qed.

Lemma fired_app (evs1 evs2 : list Event) :
  fired (evs1 ++ evs2) = fired evs1 || fired evs2.
Proof. apply existsb_app. Qed.

(** ** The alert scheduler *)

Lemma playAlert_fired (env : Inputs) (state : AlertState) (g : Globals) :
  fired (events (playAlert env state) g) =
  match state with
  | OPTIMAL | CLOSE => ulong (clock_alert env - lastAlertTime g) >=? ALERT_INTERVAL
  | NEAR => true
  | IDLE | MUTE => false
  end.
Proof.
  unfold playAlert, events, bind, millis, read.
  destruct state; cbn;
    try destruct (ulong (clock_alert env - lastAlertTime g) >=? ALERT_INTERVAL);
    reflexivity.
Qed.

Lemma playAlert_after (env : Inputs) (state : AlertState) (g : Globals) :
  after (playAlert env state) g =
  if fired (events (playAlert env state) g)
  then with_lastAlertTime g (clock_alert env)
  else g.
Proof.
  unfold playAlert, events, after, bind, millis, read.
  destruct state; cbn;
    try destruct (ulong (clock_alert env - lastAlertTime g) >=? ALERT_INTERVAL);
    reflexivity.
Qed.

(** ** The pieces of a pass *)

Lemma evaluateState_eq (temp : float) (g : Globals) :
  evaluateState temp g =
  (tt, with_currentState g (currentState (after (evaluateState temp) g)), []).
Proof.
  unfold evaluateState, after.
  destruct (fge temp (of_int TEMP_OPTIMAL_LOW) && fle temp (of_int TEMP_OPTIMAL_HIGH));
    [reflexivity |].
  destruct (feq temp (of_int TEMP_CLOSE)); [reflexivity |].
  destruct ((fge temp (of_int TEMP_NEAR_LOW) && flt temp (of_int TEMP_OPTIMAL_LOW))
            || (fgt temp (of_int TEMP_OPTIMAL_HIGH) && fle temp (of_int TEMP_NEAR_HIGH)));
    reflexivity.
Qed.

Lemma evaluateState_after (temp : float) (g : Globals) :
  after (evaluateState temp) g =
  with_currentState g (currentState (after (evaluateState temp) g)).
Proof. unfold after at 1. now rewrite evaluateState_eq. Qed.

(** The state assigned depends on the temperature only. *)
Lemma evaluateState_state (temp : float) (g1 g2 : Globals) :
  currentState (after (evaluateState temp) g1)
  = currentState (after (evaluateState temp) g2).
Proof.
  unfold evaluateState, after.
  destruct (fge temp (of_int TEMP_OPTIMAL_LOW) && fle temp (of_int TEMP_OPTIMAL_HIGH));
    [reflexivity |].
  destruct (feq temp (of_int TEMP_CLOSE)); [reflexivity |].
  now destruct ((fge temp (of_int TEMP_NEAR_LOW) && flt temp (of_int TEMP_OPTIMAL_LOW))
                || (fgt temp (of_int TEMP_OPTIMAL_HIGH) && fle temp (of_int TEMP_NEAR_HIGH))).
Qed.

Lemma evaluateState_not_MUTE (temp : float) (g : Globals) :
  currentState (after (evaluateState temp) g) <> MUTE.
Proof.
  unfold evaluateState, after.
  destruct (fge temp (of_int TEMP_OPTIMAL_LOW) && fle temp (of_int TEMP_OPTIMAL_HIGH));
    [discriminate |].
  destruct (feq temp (of_int TEMP_CLOSE)); [discriminate |].
  destruct ((fge temp (of_int TEMP_NEAR_LOW) && flt temp (of_int TEMP_OPTIMAL_LOW))
            || (fgt temp (of_int TEMP_OPTIMAL_HIGH) && fle temp (of_int TEMP_NEAR_HIGH)));
    discriminate.
Qed.

Lemma checkButton_eq (env : Inputs) (g : Globals) :
  checkButton env g =
  match button env with
  | LOW => (tt, with_systemMuted g true,
            [EDigitalRead BUTTON_PIN LOW; EPrintln msg_muted;
             EPrintln "------------------------------------------"])
  | HIGH => (tt, g, [EDigitalRead BUTTON_PIN HIGH])
  end.
Proof. unfold checkButton, bind, digitalRead. now destruct (button env). Qed.

Lemma readSensors_eq (env : Inputs) (g : Globals) :
  readSensors env g =
  (dht_temperature env, dht_humidity env, g,
   [EReadTemperature (dht_temperature env); EReadHumidity (dht_humidity env)]
   ++ (if isnan (dht_temperature env) || isnan (dht_humidity env)
       then [EPrintln msg_sensor_error; EDelay 2000] else [])).
Proof.
  unfold readSensors, bind, dht_readTemperature, dht_readHumidity.
  now destruct (isnan (dht_temperature env) || isnan (dht_humidity env)).
Qed.

Lemma updateDashboard_eq (temp humidity : float) (g : Globals) :
  updateDashboard temp humidity g =
  (tt, g, events (updateDashboard temp humidity) g).
Proof. reflexivity. Qed.

(** A pass that finds the flag set, or sets it, takes the early return. *)
Lemma loop_muted (env : Inputs) (g : Globals) :
  systemMuted g = true \/ button env = LOW ->
  loop env g =
  (tt, after (checkButton env) g,
   events (checkButton env) g
   ++ [ENoTone BUZZER_PIN; EPrintln msg_silent; EDelay 500]).
Proof.
  intros H. unfold loop, bind at 1, after, events. rewrite checkButton_eq.
  destruct (button env); cbn.
  - reflexivity.
  - destruct H as [H | H]; [| discriminate]. now rewrite H.
Qed.

(** The other passes run the sensor read, the classifier and the
    scheduler, in this order. *)
Lemma loop_unmuted (env : Inputs) (g : Globals) :
  systemMuted g = false -> button env = HIGH ->
  let temp := dht_temperature env in
  let refresh := ulong (clock_loop env - lastSerialUpdate g) >=? SERIAL_REFRESH in
  let g1 := if refresh then with_lastSerialUpdate g (clock_loop env) else g in
  let g2 := after (evaluateState temp) g1 in
  let state := currentState g2 in
  loop env g =
  (tt, after (playAlert env state) g2,
   [EDigitalRead BUTTON_PIN HIGH]
   ++ events (readSensors env) g
   ++ [EMillis (clock_loop env)]
   ++ (if refresh then events (updateDashboard temp (dht_humidity env)) g else [])
   ++ events (playAlert env state) g2
   ++ [EDelay 300]).
Proof.
  intros Hm Hb. cbv zeta.
  assert (Hcb : checkButton env g = (tt, g, [EDigitalRead BUTTON_PIN HIGH]))
    by (now rewrite checkButton_eq, Hb).
  unfold loop, bind. rewrite Hcb.
  cbn -[evaluateState playAlert readSensors updateDashboard ulong Z.geb].
  rewrite Hm. unfold events at 1. rewrite readSensors_eq.
  cbn -[evaluateState playAlert readSensors updateDashboard ulong Z.geb].
  destruct (ulong (clock_loop env - lastSerialUpdate g) >=? SERIAL_REFRESH).
  - rewrite updateDashboard_eq.
    cbn -[evaluateState playAlert readSensors updateDashboard ulong Z.geb events].
    change {| currentState := currentState g; systemMuted := systemMuted g;
              lastAlertTime := lastAlertTime g; lastSerialUpdate := clock_loop env |}
      with (with_lastSerialUpdate g (clock_loop env)).
    rewrite evaluateState_eq, <- evaluateState_after.
    set (g2 := after (evaluateState (dht_temperature env)) (with_lastSerialUpdate g (clock_loop env))).
    rewrite (M_unit_eq (playAlert env (currentState g2)) g2).
    cbn -[evaluateState playAlert readSensors updateDashboard ulong Z.geb events].
    now rewrite app_nil_r.
  - cbn -[evaluateState playAlert readSensors updateDashboard ulong Z.geb events].
    rewrite evaluateState_eq, <- evaluateState_after.
    set (g2 := after (evaluateState (dht_temperature env)) g).
    rewrite (M_unit_eq (playAlert env (currentState g2)) g2).
    cbn -[evaluateState playAlert readSensors updateDashboard ulong Z.geb events].
    reflexivity.
Qed.


Lemma loop_cases (env : Inputs) (g : Globals) :
  (systemMuted g = true \/ button env = LOW) \/
  (systemMuted g = false /\ button env = HIGH).
Proof. destruct (systemMuted g), (button env); auto. Qed.

Lemma readSensors_silent (env : Inputs) (g : Globals) :
  fired (events (readSensors env) g) = false.
Proof.
  unfold events. rewrite readSensors_eq. cbn.
  now destruct (isnan (dht_temperature env) || isnan (dht_humidity env)).
Qed.

Lemma checkButton_silent (env : Inputs) (g : Globals) :
  fired (events (checkButton env) g) = false.
Proof. unfold events. rewrite checkButton_eq. now destruct (button env). Qed.

(** What a pass does to the globals and whether it fires, by the path
    it takes. *)
Lemma loop_muted_after (env : Inputs) (g : Globals) :
  systemMuted g = true \/ button env = LOW ->
  after (loop env) g = with_systemMuted g true /\
  fired (events (loop env) g) = false.
Proof.
  intros H. unfold after at 1, events. rewrite (loop_muted env g H).
  cbn [fst snd]. split.
  - unfold after. rewrite checkButton_eq. destruct (button env); [reflexivity |].
    destruct H as [H | H]; [| discriminate].
    destruct g as [st m la ls]. cbn in H. now subst m.
  - rewrite fired_app. fold (events (checkButton env) g).
    now rewrite checkButton_silent.
Qed.

Lemma loop_unmuted_after (env : Inputs) (g : Globals) :
  systemMuted g = false -> button env = HIGH ->
  let refresh := ulong (clock_loop env - lastSerialUpdate g) >=? SERIAL_REFRESH in
  let g1 := if refresh then with_lastSerialUpdate g (clock_loop env) else g in
  let g2 := after (evaluateState (dht_temperature env)) g1 in
  after (loop env) g = after (playAlert env (currentState g2)) g2 /\
  fired (events (loop env) g) = fired (events (playAlert env (currentState g2)) g2).
Proof.
  intros Hm Hb. cbv zeta. unfold after at 1, events at 1.
  rewrite (loop_unmuted env g Hm Hb). cbn [fst snd]. split; [reflexivity |].
  rewrite !fired_app, readSensors_silent.
  destruct (ulong (clock_loop env - lastSerialUpdate g) >=? SERIAL_REFRESH);
    cbn; now rewrite orb_false_r.
Qed.

Lemma loop_lastAlertTime (env : Inputs) (g : Globals) :
  lastAlertTime (after (loop env) g) =
  if fired (events (loop env) g) then clock_alert env else lastAlertTime g.
Proof.
  destruct (loop_cases env g) as [H | [Hm Hb]].
  - destruct (loop_muted_after env g H) as [-> ->]. reflexivity.
  - destruct (loop_unmuted_after env g Hm Hb) as [-> ->].
    rewrite playAlert_after, evaluateState_after.
    destruct (fired _); cbn [lastAlertTime with_lastAlertTime with_currentState];
      [reflexivity |].
    now destruct (ulong (clock_loop env - lastSerialUpdate g) >=? SERIAL_REFRESH).
Qed.

Lemma loop_systemMuted (env : Inputs) (g : Globals) :
  systemMuted (after (loop env) g) = systemMuted g || pressed env.
Proof.
  destruct (loop_cases env g) as [H | [Hm Hb]].
  - destruct (loop_muted_after env g H) as [-> _]. cbn.
    unfold pressed. destruct H as [-> | ->]; [reflexivity | now rewrite orb_true_r].
  - destruct (loop_unmuted_after env g Hm Hb) as [-> _].
    rewrite playAlert_after, evaluateState_after. unfold pressed. rewrite Hm, Hb.
    destruct (fired _); cbn [systemMuted with_lastAlertTime with_currentState];
      now destruct (ulong (clock_loop env - lastSerialUpdate g) >=? SERIAL_REFRESH).
Qed.

Lemma loop_currentState (env : Inputs) (g : Globals) :
  currentState (after (loop env) g) = currentState g \/
  currentState (after (loop env) g) <> MUTE.
Proof.
  destruct (loop_cases env g) as [H | [Hm Hb]].
  - destruct (loop_muted_after env g H) as [-> _]. now left.
  - destruct (loop_unmuted_after env g Hm Hb) as [-> _]. right.
    rewrite playAlert_after.
    destruct (fired _); cbn [currentState with_lastAlertTime];
      apply evaluateState_not_MUTE.
Qed.

(** ** Runs *)

Lemma run_app_after (inputs1 inputs2 : list Inputs) (g : Globals) :
  after (run (inputs1 ++ inputs2)) g = after (run inputs2) (after (run inputs1) g).
Proof.
  revert g. induction inputs1 as [| env rest IH]; intros g; [reflexivity |].
  cbn [run app]. now rewrite !after_bind, IH.
Qed.

Lemma sketch_after (inputs : list Inputs) :
  after (sketch inputs) initial = after (run inputs) initial.
Proof. unfold sketch. now rewrite after_bind. Qed.

(** ** The classifier: threshold table, exact Close, NaN *)

(** C1: the classifier is the threshold table. For every finite binary32
    temperature, read as the rational [q] it denotes, [evaluateState]
    assigns OPTIMAL exactly when 22 <= q <= 24, NEAR exactly when q is in
    [20, 22) or (24, 26] and is not 25, IDLE exactly when q < 20 or
    26 < q; the remaining row of the table, q = 25, is CLOSE. *)
Theorem C1_classifier_is_threshold_table (t : float) (g : Globals) :
  valid_float t = true -> is_finite t = true ->
  let q := to_Q t in
  let st := currentState (after (evaluateState t) g) in
  (st = OPTIMAL <-> (22 <= q /\ q <= 24)%Q) /\
  (st = NEAR <->
     ((20 <= q /\ q < 22) \/ (24 < q /\ q <= 26))%Q /\ ~ (q == 25)%Q) /\
  (st = IDLE <-> (q < 20 \/ 26 < q)%Q) /\
  (st = CLOSE <-> (q == 25)%Q).
Proof.
  intros Hv Hf q st.
  destruct (Classifier.evaluateState_table t Hv Hf g) as (Ho & Hc & Hn & Hi).
  exact (conj Ho (conj Hn (conj Hi Hc))).
Qed.

Lemma C1_witness :
  valid_float (of_int 23) = true /\ is_finite (of_int 23) = true /\
  (currentState (after (evaluateState (of_int 23)) initial) = OPTIMAL <->
   (22 <= to_Q (of_int 23) /\ to_Q (of_int 23) <= 24)%Q).
Proof.
  split; [reflexivity |]. split; [reflexivity |].
  exact (proj1 (C1_classifier_is_threshold_table (of_int 23) initial eq_refl eq_refl)).
Defined.

Lemma evaluateState_CLOSE_iff (t : float) (g : Globals) :
  valid_float t = true ->
  currentState (after (evaluateState t) g) = CLOSE <->
  is_finite t = true /\ (to_Q t == 25)%Q.
Proof.
  intros Hv. destruct (is_finite t) eqn:Hf.
  - destruct (Classifier.evaluateState_table t Hv Hf g) as (_ & Hc & _).
    rewrite Hc. tauto.
  - destruct t as [s | s | | s m e]; try discriminate;
      [destruct s |]; (split; [discriminate | intros [? _]; discriminate]).
Qed.

(** C5: exact-equality semantics of Close. The literal 25.0 classifies
    as CLOSE and the literal 25.0001 (the binary32 nearest to it, half
    an ulp being 2^-20 = 1/1048576 there) does not; more generally a
    binary32 value is CLOSE exactly when it is finite and denotes 25,
    however near to 25 it may otherwise be. *)
Theorem C5_close_is_exact_equality :
  (to_Q literal_25_0 == 25)%Q /\
  (Qabs (to_Q literal_25_0001 - (250001 # 10000)) <= 1 # 1048576)%Q /\
  (forall g, currentState (after (evaluateState literal_25_0) g) = CLOSE) /\
  (forall g, currentState (after (evaluateState literal_25_0001) g) <> CLOSE) /\
  (forall t g, valid_float t = true ->
     (currentState (after (evaluateState t) g) = CLOSE <->
      is_finite t = true /\ (to_Q t == 25)%Q)).
Proof.
  split; [reflexivity |].
  split; [vm_compute; discriminate |].
  split; [reflexivity |].
  split; [discriminate |].
  intros t g Hv. now apply evaluateState_CLOSE_iff.
Qed.

Lemma C5_witness :
  valid_float (of_ratio 13107201 524288) = true /\
  (currentState (after (evaluateState (of_ratio 13107201 524288)) initial) = CLOSE <->
   is_finite (of_ratio 13107201 524288) = true /\
   (to_Q (of_ratio 13107201 524288) == 25)%Q).
Proof.
  split; [reflexivity |].
  exact (proj2 (proj2 (proj2 (proj2 C5_close_is_exact_equality)))
           (of_ratio 13107201 524288) initial eq_refl).
Defined.

(** C9: the classifier is total, and on NaN it assigns IDLE. Every
    comparison with NaN is false; on every input [evaluateState]
    returns, emits nothing, and leaves one of the four temperature
    states in [currentState]. *)
Theorem C9_classifier_total_nan_is_idle (g : Globals) :
  (forall c : float,
     fge S754_nan c = false /\ fle S754_nan c = false /\ feq S754_nan c = false /\
     flt S754_nan c = false /\ fgt S754_nan c = false) /\
  evaluateState S754_nan g = (tt, with_currentState g IDLE, []) /\
  (forall temp : float,
     exists st : AlertState,
       evaluateState temp g = (tt, with_currentState g st, []) /\
       (st = OPTIMAL \/ st = CLOSE \/ st = NEAR \/ st = IDLE)).
Proof.
  split; [| split].
  - intros c. unfold fge, fle, feq, flt, fgt, SFleb, SFltb, SFeqb.
    now destruct c.
  - reflexivity.
  - intros temp. exists (currentState (after (evaluateState temp) g)).
    split; [apply evaluateState_eq |].
    unfold evaluateState, after.
    destruct (fge temp (of_int TEMP_OPTIMAL_LOW) && fle temp (of_int TEMP_OPTIMAL_HIGH));
      [cbn; auto |].
    destruct (feq temp (of_int TEMP_CLOSE)); [cbn; auto |].
    destruct ((fge temp (of_int TEMP_NEAR_LOW) && flt temp (of_int TEMP_OPTIMAL_LOW))
              || (fgt temp (of_int TEMP_OPTIMAL_HIGH) && fle temp (of_int TEMP_NEAR_HIGH)));
      cbn; auto.
Qed.

(** ** The scheduler: cooldown and the Near asymmetry *)

Lemma ulong_elapsed (T d : Z) :
  0 <= d < 2 ^ 32 -> ulong (ulong (T + d) - T) = d.
Proof.
  intros Hd. unfold ulong. rewrite Zminus_mod_idemp_l.
  replace (T + d - T) with d by ring. now apply Z.mod_small.
Qed.

(** C2: the cooldown law of the gated states. In OPTIMAL and in CLOSE
    the scheduler fires exactly when the unsigned difference between the
    clock and the last-alert timestamp is at least the interval of
    5000 ms (which is the plain difference as long as the clock has not
    wrapped since the last alert); when it fires the timestamp becomes
    the clock value, and otherwise nothing changes. Hence after firing
    at time T a call at T + interval - 1 does not fire and a call at
    T + interval does. *)
Theorem C2_cooldown_law (env : Inputs) (state : AlertState) (g : Globals) :
  state = OPTIMAL \/ state = CLOSE ->
  let T := clock_alert env in
  let g' := after (playAlert env state) g in
  ALERT_INTERVAL = 5000 /\
  (fired (events (playAlert env state) g) = true <->
   ALERT_INTERVAL <= ulong (T - lastAlertTime g)) /\
  (0 <= lastAlertTime g <= T /\ T < 2 ^ 32 ->
   (fired (events (playAlert env state) g) = true <->
    ALERT_INTERVAL <= T - lastAlertTime g)) /\
  (fired (events (playAlert env state) g) = true -> lastAlertTime g' = T) /\
  (fired (events (playAlert env state) g) = false -> g' = g) /\
  (fired (events (playAlert env state) g) = true ->
   forall (env' : Inputs) (state' : AlertState),
     state' = OPTIMAL \/ state' = CLOSE ->
     (clock_alert env' = ulong (T + ALERT_INTERVAL - 1) ->
      fired (events (playAlert env' state') g') = false) /\
     (clock_alert env' = ulong (T + ALERT_INTERVAL) ->
      fired (events (playAlert env' state') g') = true)).
Proof.
  intros Hs T g'.
  assert (Hf : fired (events (playAlert env state) g)
               = (ulong (T - lastAlertTime g) >=? ALERT_INTERVAL))
    by (rewrite playAlert_fired; now destruct Hs as [-> | ->]).
  assert (Hg : g' = if fired (events (playAlert env state) g)
                    then with_lastAlertTime g T else g)
    by apply playAlert_after.
  split; [reflexivity |]. split; [| split; [| split; [| split]]].
  - rewrite Hf, Z.geb_le. reflexivity.
  - intros [Hl HT]. rewrite Hf, Z.geb_le. unfold ulong.
    rewrite Z.mod_small by lia. reflexivity.
  - intros E. rewrite Hg, E. reflexivity.
  - intros E. rewrite Hg, E. reflexivity.
  - intros E env' state' Hs'.
    assert (Hl : lastAlertTime g' = T) by (rewrite Hg, E; reflexivity).
    split; intros Hc; rewrite playAlert_fired, Hc, Hl.
    + replace (T + ALERT_INTERVAL - 1) with (T + 4999) by (unfold ALERT_INTERVAL; ring).
      rewrite ulong_elapsed by (change (2 ^ 32) with 4294967296; lia).
      now destruct Hs' as [-> | ->].
    + unfold ALERT_INTERVAL.
      rewrite ulong_elapsed by (change (2 ^ 32) with 4294967296; lia).
      now destruct Hs' as [-> | ->].
Qed.

Lemma C2_witness :
  (OPTIMAL = OPTIMAL \/ OPTIMAL = CLOSE) /\
  (fired (events (playAlert optimal_pass OPTIMAL) initial) = true <->
   ALERT_INTERVAL <= ulong (clock_alert optimal_pass - lastAlertTime initial)).
Proof.
  split; [now left |].
  exact (proj1 (proj2
    (C2_cooldown_law optimal_pass OPTIMAL initial (or_introl eq_refl)))).
Defined.

(** C3: the asymmetry of NEAR. In NEAR the scheduler fires on every call,
    whatever the last-alert timestamp, and always sets the timestamp to
    the clock value: it prints the message, starts the tone, holds it
    for 5000 ms and stops it. So every unmuted pass whose temperature
    classifies as NEAR fires and moves the timestamp. *)
Theorem C3_near_fires_on_every_call (env : Inputs) (g : Globals) :
  fired (events (playAlert env NEAR) g) = true /\
  after (playAlert env NEAR) g = with_lastAlertTime g (clock_alert env) /\
  lastAlertTime (after (playAlert env NEAR) g) = clock_alert env /\
  events (playAlert env NEAR) g =
  [EMillis (clock_alert env); EPrintln msg_near;
   ETone BUZZER_PIN 1000 None; EDelay 5000; ENoTone BUZZER_PIN] /\
  (systemMuted g = false -> button env = HIGH ->
   currentState (after (evaluateState (dht_temperature env)) g) = NEAR ->
   fired (events (loop env) g) = true /\
   lastAlertTime (after (loop env) g) = clock_alert env).
Proof.
  repeat apply conj; try reflexivity.
  intros Hm Hb Hn.
  assert (Hf : fired (events (loop env) g) = true).
  { destruct (loop_unmuted_after env g Hm Hb) as [_ ->].
    rewrite (evaluateState_state _ _ g), Hn. reflexivity. }
  split; [exact Hf |]. now rewrite loop_lastAlertTime, Hf.
Qed.

Lemma C3_witness :
  systemMuted after_optimal_pass = false /\
  button near_pass = HIGH /\
  currentState (after (evaluateState (dht_temperature near_pass))
                  after_optimal_pass) = NEAR /\
  fired (events (loop near_pass) after_optimal_pass) = true /\
  lastAlertTime (after (loop near_pass) after_optimal_pass)
  = clock_alert near_pass.
Proof.
  split; [reflexivity |]. split; [reflexivity |]. split; [reflexivity |].
  exact (proj2 (proj2 (proj2 (proj2
    (C3_near_fires_on_every_call near_pass after_optimal_pass))))
    eq_refl eq_refl eq_refl).
Defined.

(** ** The loop driver while muted *)

Lemma with_systemMuted_id (g : Globals) :
  systemMuted g = true -> with_systemMuted g true = g.
Proof. destruct g as [st m la ls]. cbn. now intros ->. Qed.

Lemma checkButton_systemMuted (env : Inputs) (g : Globals) :
  systemMuted (after (checkButton env) g) = true <->
  systemMuted g = true \/ button env = LOW.
Proof.
  unfold after. rewrite checkButton_eq. destruct (button env); cbn.
  - split; auto.
  - split; [auto | now intros [H | H]].
Qed.

Lemma run_muted (inputs : list Inputs) (g : Globals) :
  systemMuted g = true ->
  after (run inputs) g = g /\ fired (events (run inputs) g) = false.
Proof.
  intros Hm. induction inputs as [| env rest [IHa IHf]]; [now split |].
  cbn [run]. rewrite after_bind, events_bind, fired_app.
  destruct (loop_muted_after env g (or_introl Hm)) as [Ha Hf].
  rewrite Ha, Hf, (with_systemMuted_id g Hm). now split.
Qed.

(** C6: while the mute flag is set a pass evaluates no comfort state and
    fires no alert. When [loop] finds the flag set after [checkButton],
    the pass is [checkButton], [stopAlerts], the muted message and the
    delay, and nothing else: the sensor and the clock are not read, the
    classifier and the scheduler are not called, no tone starts, the
    buzzer is stopped, and the comfort state and both timestamps keep
    their values. Once the flag is set this holds for every later pass. *)
Theorem C6_muted_pass_skips_core (env : Inputs) (g : Globals) :
  systemMuted (after (checkButton env) g) = true ->
  loop env g = (checkButton env ;; stopAlerts ;; showMutedMessage ;; delay 500) g /\
  after (loop env) g = with_systemMuted g true /\
  currentState (after (loop env) g) = currentState g /\
  lastAlertTime (after (loop env) g) = lastAlertTime g /\
  fired (events (loop env) g) = false /\
  existsb reads_sensor_or_clock (events (loop env) g) = false /\
  In (ENoTone BUZZER_PIN) (events (loop env) g) /\
  (systemMuted g = true ->
   forall inputs : list Inputs,
     after (run inputs) g = g /\ fired (events (run inputs) g) = false).
Proof.
  intros H. apply checkButton_systemMuted in H.
  destruct (loop_muted_after env g H) as [Ha Hf].
  pose proof (loop_muted env g H) as Hl.
  assert (He : events (loop env) g
               = events (checkButton env) g
                 ++ [ENoTone BUZZER_PIN; EPrintln msg_silent; EDelay 500])
    by (unfold events at 1; now rewrite Hl).
  repeat apply conj.
  - rewrite Hl. unfold bind, after, events.
    destruct (checkButton env g) as [[[] g1] t1]. reflexivity.
  - exact Ha.
  - now rewrite Ha.
  - now rewrite Ha.
  - exact Hf.
  - rewrite He, existsb_app. unfold events. rewrite checkButton_eq.
    now destruct (button env).
  - rewrite He. apply in_or_app. right. now left.
  - intros Hm inputs. now apply run_muted.
Qed.

Lemma C6_witness :
  systemMuted (after (checkButton optimal_pass) after_press) = true /\
  after (loop optimal_pass) after_press = with_systemMuted after_press true /\
  fired (events (loop optimal_pass) after_press) = false.
Proof.
  split; [reflexivity |].
  pose proof (C6_muted_pass_skips_core optimal_pass after_press eq_refl)
    as (_ & Ha & _ & _ & Hf & _).
  exact (conj Ha Hf).
Defined.

(** ** The mute flag *)

Lemma run_systemMuted (inputs : list Inputs) (g : Globals) :
  systemMuted (after (run inputs) g) = systemMuted g || existsb pressed inputs.
Proof.
  revert g. induction inputs as [| env rest IH]; intros g.
  - cbn. now rewrite orb_false_r.
  - cbn [run existsb]. now rewrite after_bind, IH, loop_systemMuted, orb_assoc.
Qed.

Lemma edge_latch_set (previous : Level) (reads : list Level) :
  edge_latch previous true reads = true.
Proof.
  revert previous. induction reads as [| v rest IH]; intros previous; [reflexivity |].
  cbn [edge_latch orb]. apply IH.
Qed.

(** From the released level an edge latch holds exactly when some read
    was LOW: the first LOW read is a falling edge. *)
Lemma edge_latch_released (inputs : list Inputs) :
  edge_latch HIGH false (map button inputs) = existsb pressed inputs.
Proof.
  induction inputs as [| env rest IH]; [reflexivity |].
  cbn [map edge_latch existsb]. unfold pressed at 1.
  destruct (button env); cbn.
  - apply edge_latch_set.
  - exact IH.
Qed.

Lemma flag_trace_rises (inputs : list Inputs) (g : Globals) :
  rises (systemMuted g) (flag_trace inputs g)
  = (if negb (systemMuted g) && existsb pressed inputs then 1%nat else 0%nat).
Proof.
  revert g. induction inputs as [| env rest IH]; intros g.
  - cbn. now rewrite andb_false_r.
  - cbn [flag_trace rises existsb]. rewrite IH, loop_systemMuted.
    now destruct (systemMuted g), (pressed env), (existsb pressed rest).
Qed.

Lemma flag_trace_falls (inputs : list Inputs) (g : Globals) :
  falls (systemMuted g) (flag_trace inputs g) = 0%nat.
Proof.
  revert g. induction inputs as [| env rest IH]; intros g; [reflexivity |].
  cbn [flag_trace falls]. rewrite IH, loop_systemMuted.
  now destruct (systemMuted g), (pressed env).
Qed.

(** C7: the mute flag is false at startup and after [setup]; it is set
    by the mute button, and over any run its value is the one an edge
    detector on the button, released before the first read, would
    latch; it goes from false to true exactly once in a run in which
    the button is read LOW (and not at all in the others), at the pass
    that first reads LOW; and it is never cleared: it never goes from
    true to false, and once true it is true after every later pass. *)
Theorem C7_mute_flag_set_once_and_sticky :
  systemMuted initial = false /\
  systemMuted (after setup initial) = false /\
  (forall inputs : list Inputs,
     systemMuted (after (sketch inputs) initial)
     = edge_latch HIGH false (map button inputs)) /\
  (forall inputs : list Inputs,
     rises false (flag_trace inputs (after setup initial))
     = (if existsb pressed inputs then 1%nat else 0%nat)) /\
  (forall (env : Inputs) (g : Globals),
     systemMuted (after (loop env) g) = systemMuted g || pressed env) /\
  (forall (inputs : list Inputs) (g : Globals),
     falls (systemMuted g) (flag_trace inputs g) = 0%nat) /\
  (forall (inputs : list Inputs) (g : Globals),
     systemMuted g = true -> systemMuted (after (run inputs) g) = true).
Proof.
  repeat apply conj; try reflexivity.
  - intros inputs. now rewrite sketch_after, run_systemMuted, edge_latch_released.
  - intros inputs. exact (flag_trace_rises inputs (after setup initial)).
  - apply loop_systemMuted.
  - apply flag_trace_falls.
  - intros inputs g Hm. now rewrite run_systemMuted, Hm.
Qed.

Lemma C7_witness :
  systemMuted after_press = true /\
  systemMuted (after (run [optimal_pass; near_pass]) after_press) = true.
Proof.
  split; [reflexivity |].
  exact (proj2 (proj2 (proj2 (proj2 (proj2 (proj2 C7_mute_flag_set_once_and_sticky)))))
           [optimal_pass; near_pass] after_press eq_refl).
Defined.

(** ** The last-alert timestamp *)

Lemma clock_readings_app (inputs1 inputs2 : list Inputs) :
  clock_readings (inputs1 ++ inputs2)
  = clock_readings inputs1 ++ clock_readings inputs2.
Proof. apply flat_map_app. Qed.

Lemma last_cons (l : list Z) (a d : Z) : last (a :: l) d = last l a.
Proof.
  revert a d. induction l as [| b l IH]; intros a d; [reflexivity |].
  change (last (a :: b :: l) d) with (last (b :: l) d).
  now rewrite !(IH b).
Qed.

Lemma nondecreasing_from_app (start : Z) (l1 l2 : list Z) :
  nondecreasing_from start (l1 ++ l2) ->
  nondecreasing_from start l1 /\ nondecreasing_from (last l1 start) l2.
Proof.
  revert start. induction l1 as [| t rest IH]; intros start H; [now split |].
  destruct H as [Hs Hr]. destruct (IH t Hr) as [H1 H2].
  split; [now split |]. now rewrite last_cons.
Qed.

(** Under a monotonic clock a run moves the timestamp forward only, and
    never past the latest clock value. *)
Lemma run_lastAlertTime (inputs : list Inputs) (g : Globals) (start : Z) :
  lastAlertTime g <= start ->
  nondecreasing_from start (clock_readings inputs) ->
  lastAlertTime g <= lastAlertTime (after (run inputs) g)
  /\ lastAlertTime (after (run inputs) g) <= last (clock_readings inputs) start.
Proof.
  revert g start. induction inputs as [| env rest IH]; intros g start Hg Hc.
  - cbn. lia.
  - cbn [run]. rewrite after_bind.
    change (clock_readings (env :: rest))
      with (clock_loop env :: clock_alert env :: clock_readings rest) in *.
    destruct Hc as (Hl & Ha & Hr).
    pose proof (loop_lastAlertTime env g) as Hstep.
    assert (Hg' : lastAlertTime g <= lastAlertTime (after (loop env) g)
                  /\ lastAlertTime (after (loop env) g) <= clock_alert env)
      by (rewrite Hstep; destruct (fired _); lia).
    destruct (IH (after (loop env) g) (clock_alert env) (proj2 Hg') Hr) as [H1 H2].
    split; [lia |]. now rewrite !last_cons.
Qed.

(** C8: the last-alert timestamp is written by the scheduler only, and
    only when it fires. [playAlert] and a whole pass of [loop] leave it
    at the clock value the scheduler read if a tone was started and at
    its old value otherwise; [setup], [checkButton], [readSensors],
    [updateDashboard] and [evaluateState] never change it. So when the
    clock is monotonic the timestamp after a run is never below the
    timestamp after any of its prefixes. *)
Theorem C8_lastAlertTime_set_on_fire_only_and_monotone :
  lastAlertTime initial = 0 /\
  (forall (env : Inputs) (state : AlertState) (g : Globals),
     lastAlertTime (after (playAlert env state) g)
     = if fired (events (playAlert env state) g)
       then clock_alert env else lastAlertTime g) /\
  (forall (env : Inputs) (g : Globals),
     lastAlertTime (after (loop env) g)
     = if fired (events (loop env) g)
       then clock_alert env else lastAlertTime g) /\
  (forall (env : Inputs) (g : Globals) (temp humidity : float),
     lastAlertTime (after setup g) = lastAlertTime g /\
     lastAlertTime (after (checkButton env) g) = lastAlertTime g /\
     lastAlertTime (after (readSensors env) g) = lastAlertTime g /\
     lastAlertTime (after (updateDashboard temp humidity) g) = lastAlertTime g /\
     lastAlertTime (after (evaluateState temp) g) = lastAlertTime g) /\
  (forall inputs1 inputs2 : list Inputs,
     monotonic_clock (inputs1 ++ inputs2) ->
     lastAlertTime (after (sketch inputs1) initial)
     <= lastAlertTime (after (sketch (inputs1 ++ inputs2)) initial)).
Proof.
  repeat apply conj.
  - reflexivity.
  - intros env state g. rewrite playAlert_after. now destruct (fired _).
  - apply loop_lastAlertTime.
  - intros env g temp humidity. repeat apply conj; try reflexivity.
    + unfold after. rewrite checkButton_eq. now destruct (button env).
    + unfold after. now rewrite readSensors_eq.
    + now rewrite evaluateState_after.
  - intros inputs1 inputs2 Hc. rewrite !sketch_after, run_app_after.
    unfold monotonic_clock in Hc. rewrite clock_readings_app in Hc.
    apply nondecreasing_from_app in Hc. destruct Hc as [Hc1 Hc2].
    destruct (run_lastAlertTime inputs1 initial 0 (Z.le_refl 0) Hc1) as [_ Hup].
    now destruct (run_lastAlertTime inputs2 (after (run inputs1) initial) _ Hup Hc2).
Qed.

Lemma C8_witness :
  monotonic_clock ([optimal_pass] ++ [near_pass]) /\
  lastAlertTime (after (sketch [optimal_pass]) initial)
  <= lastAlertTime (after (sketch ([optimal_pass] ++ [near_pass])) initial).
Proof.
  assert (H : monotonic_clock ([optimal_pass] ++ [near_pass]))
    by (cbn; lia).
  split; [exact H |].
  exact (proj2 (proj2 (proj2 (proj2 C8_lastAlertTime_set_on_fire_only_and_monotone)))
           [optimal_pass] [near_pass] H).
Defined.

(** ** The comfort state *)

Lemma run_currentState (inputs : list Inputs) (g : Globals) :
  currentState g <> MUTE -> currentState (after (run inputs) g) <> MUTE.
Proof.
  revert g. induction inputs as [| env rest IH]; intros g Hg; [exact Hg |].
  cbn [run]. rewrite after_bind. apply IH.
  destruct (loop_currentState env g) as [-> | H]; assumption.
Qed.

(** C10: [currentState] is never MUTE. It starts as IDLE;
    [evaluateState] assigns OPTIMAL, CLOSE, NEAR or IDLE and is the only
    function that assigns it ([setup], [checkButton], [readSensors],
    [updateDashboard] and [playAlert] keep its value, and a pass either
    keeps it or leaves what [evaluateState] assigned); so it is not MUTE
    after any number of passes, muted or not. Muting lives in the
    separate flag [systemMuted]. *)
Theorem C10_currentState_never_MUTE :
  currentState initial = IDLE /\
  (forall (temp : float) (g : Globals),
     let st := currentState (after (evaluateState temp) g) in
     st = OPTIMAL \/ st = CLOSE \/ st = NEAR \/ st = IDLE) /\
  (forall (env : Inputs) (g : Globals) (state : AlertState) (temp humidity : float),
     currentState (after setup g) = currentState g /\
     currentState (after (checkButton env) g) = currentState g /\
     currentState (after (readSensors env) g) = currentState g /\
     currentState (after (updateDashboard temp humidity) g) = currentState g /\
     currentState (after (playAlert env state) g) = currentState g) /\
  (forall (env : Inputs) (g : Globals),
     currentState (after (loop env) g) = currentState g \/
     currentState (after (loop env) g)
     = currentState (after (evaluateState (dht_temperature env)) g)) /\
  (forall inputs : list Inputs,
     currentState (after (sketch inputs) initial) <> MUTE) /\
  (forall inputs : list Inputs,
     systemMuted (after (sketch inputs) initial) = true ->
     currentState (after (sketch inputs) initial) <> MUTE).
Proof.
  repeat apply conj.
  - reflexivity.
  - intros temp g. cbv zeta.
    pose proof (evaluateState_not_MUTE temp g) as H.
    destruct (currentState (after (evaluateState temp) g)); auto.
    now elim H.
  - intros env g state temp humidity. repeat apply conj; try reflexivity.
    + unfold after. rewrite checkButton_eq. now destruct (button env).
    + unfold after. now rewrite readSensors_eq.
    + rewrite playAlert_after. now destruct (fired _).
  - intros env g. destruct (loop_cases env g) as [H | [Hm Hb]].
    + destruct (loop_muted_after env g H) as [-> _]. now left.
    + destruct (loop_unmuted_after env g Hm Hb) as [-> _]. right.
      rewrite playAlert_after.
      destruct (fired _); cbn [currentState with_lastAlertTime];
        apply evaluateState_state.
  - intros inputs. rewrite sketch_after. now apply run_currentState.
  - intros inputs _. rewrite sketch_after. now apply run_currentState.
Qed.

Lemma C10_witness :
  systemMuted (after (sketch held_two_passes) initial) = true /\
  currentState (after (sketch held_two_passes) initial) <> MUTE.
Proof.
  split; [reflexivity |].
  exact (proj2 (proj2 (proj2 (proj2 (proj2 C10_currentState_never_MUTE))))
           held_two_passes eq_refl).
Defined.

(** ** Invalid samples *)

(** C4, evaluated on the code: an invalid sample does not end the pass.
    [readSensors] logs the warning, waits and returns, and [loop] goes
    on to the classifier and the scheduler. After a pass that left the
    state OPTIMAL, a NaN temperature moves the state to IDLE; a NaN
    humidity next to a temperature of 21 moves it to NEAR, fires the
    long beep and overwrites the last-alert timestamp. *)
Theorem C4_invalid_sample_still_classified_and_scheduled :
  (currentState after_optimal_pass = OPTIMAL /\
   lastAlertTime after_optimal_pass = 6001) /\
  (In (EPrintln msg_sensor_error) (events (loop bad_temperature_pass) after_optimal_pass) /\
   In (EMillis 7001) (events (loop bad_temperature_pass) after_optimal_pass) /\
   currentState (after (loop bad_temperature_pass) after_optimal_pass) = IDLE) /\
  (In (EPrintln msg_sensor_error) (events (loop bad_humidity_pass) after_optimal_pass) /\
   currentState (after (loop bad_humidity_pass) after_optimal_pass) = NEAR /\
   fired (events (loop bad_humidity_pass) after_optimal_pass) = true /\
   lastAlertTime (after (loop bad_humidity_pass) after_optimal_pass) = 7001).
Proof.
  vm_compute. repeat split; auto 20.
Qed.

(** ** Traces of the scheduler and of a pass *)

Lemma playAlert_events (env : Inputs) (state : AlertState) (g : Globals) :
  events (playAlert env state) g =
  EMillis (clock_alert env)
  :: match state with
     | OPTIMAL =>
         if ulong (clock_alert env - lastAlertTime g) >=? ALERT_INTERVAL
         then [ETone BUZZER_PIN 1500 (Some 200); EPrintln msg_optimal] else []
     | CLOSE =>
         if ulong (clock_alert env - lastAlertTime g) >=? ALERT_INTERVAL
         then [ETone BUZZER_PIN 1000 (Some 200); EPrintln msg_close] else []
     | NEAR =>
         [EPrintln msg_near; ETone BUZZER_PIN 1000 None; EDelay 5000;
          ENoTone BUZZER_PIN]
     | IDLE => [ENoTone BUZZER_PIN]
     | MUTE => []
     end.
Proof.
  unfold playAlert, events, bind, millis, read.
  destruct state; cbn;
    try destruct (ulong (clock_alert env - lastAlertTime g) >=? ALERT_INTERVAL);
    reflexivity.
Qed.

Lemma unmuted_pass_true (env : Inputs) (g : Globals) :
  unmuted_pass env g = true <-> systemMuted g = false /\ button env = HIGH.
Proof.
  unfold unmuted_pass, pressed.
  destruct (systemMuted g), (button env); cbn; intuition discriminate.
Qed.

Lemma unmuted_pass_false (env : Inputs) (g : Globals) :
  unmuted_pass env g = false <-> systemMuted g = true \/ button env = LOW.
Proof.
  unfold unmuted_pass, pressed.
  destruct (systemMuted g), (button env); cbn; intuition discriminate.
Qed.

Lemma playAlert_events_timestamp (env : Inputs) (state : AlertState) (g1 g2 : Globals) :
  lastAlertTime g1 = lastAlertTime g2 ->
  events (playAlert env state) g1 = events (playAlert env state) g2.
Proof. intros H. now rewrite !playAlert_events, H. Qed.

(** The trace of a pass, whichever path it takes. *)
Lemma loop_events (env : Inputs) (g : Globals) :
  events (loop env) g =
  if unmuted_pass env g then
    let temp := dht_temperature env in
    let refresh := ulong (clock_loop env - lastSerialUpdate g) >=? SERIAL_REFRESH in
    [EDigitalRead BUTTON_PIN HIGH; EReadTemperature temp;
     EReadHumidity (dht_humidity env)]
    ++ (if isnan temp || isnan (dht_humidity env)
        then [EPrintln msg_sensor_error; EDelay 2000] else [])
    ++ [EMillis (clock_loop env)]
    ++ (if refresh then events (updateDashboard temp (dht_humidity env)) g else [])
    ++ events (playAlert env (currentState (after (evaluateState temp) g))) g
    ++ [EDelay 300]
  else
    EDigitalRead BUTTON_PIN (button env)
    :: (if pressed env
        then [EPrintln msg_muted; EPrintln "------------------------------------------"]
        else [])
    ++ [ENoTone BUZZER_PIN; EPrintln msg_silent; EDelay 500].
Proof.
  destruct (unmuted_pass env g) eqn:E.
  - apply unmuted_pass_true in E. destruct E as [Hm Hb].
    unfold events at 1. rewrite (loop_unmuted env g Hm Hb). cbn [snd].
    unfold events at 1. rewrite readSensors_eq. cbn [snd app]. cbv zeta.
    rewrite (evaluateState_state _ _ g).
    rewrite (playAlert_events_timestamp env _ _ g).
    + reflexivity.
    + rewrite evaluateState_after.
      now destruct (ulong (clock_loop env - lastSerialUpdate g) >=? SERIAL_REFRESH).
  - apply unmuted_pass_false in E.
    unfold events at 1. rewrite (loop_muted env g E). cbn [snd].
    unfold events, pressed. rewrite checkButton_eq. now destruct (button env).
Qed.

(** The globals a pass leaves behind, whichever path it takes. *)
Lemma loop_after (env : Inputs) (g : Globals) :
  after (loop env) g =
  if unmuted_pass env g then
    let state := currentState (after (evaluateState (dht_temperature env)) g) in
    mkGlobals state (systemMuted g)
      (if fired (events (playAlert env state) g)
       then clock_alert env else lastAlertTime g)
      (if ulong (clock_loop env - lastSerialUpdate g) >=? SERIAL_REFRESH
       then clock_loop env else lastSerialUpdate g)
  else with_systemMuted g true.
Proof.
  destruct (unmuted_pass env g) eqn:E.
  - apply unmuted_pass_true in E. destruct E as [Hm Hb].
    destruct (loop_unmuted_after env g Hm Hb) as [-> _]. cbv zeta.
    rewrite playAlert_after.
    destruct (ulong (clock_loop env - lastSerialUpdate g) >=? SERIAL_REFRESH).
    + rewrite (evaluateState_state _ (with_lastSerialUpdate g (clock_loop env)) g).
      rewrite (playAlert_events_timestamp env _ _ g)
        by now rewrite evaluateState_after.
      rewrite (evaluateState_after _ (with_lastSerialUpdate g (clock_loop env))),
        (evaluateState_state _ (with_lastSerialUpdate g (clock_loop env)) g).
      now destruct (fired _).
    + rewrite (playAlert_events_timestamp env _ _ g)
        by now rewrite evaluateState_after.
      rewrite evaluateState_after. now destruct (fired _).
  - apply unmuted_pass_false in E. now destruct (loop_muted_after env g E).
Qed.

Lemma existsb_by_filter (p : Event -> bool) (evs : list Event) :
  existsb p evs = match filter p evs with [] => false | _ :: _ => true end.
Proof.
  induction evs as [| e evs IH]; [reflexivity |].
  cbn. now destruct (p e).
Qed.

Lemma playAlert_no_reading (env : Inputs) (state : AlertState) (g : Globals) :
  filter is_reading (events (playAlert env state) g) = [].
Proof.
  rewrite playAlert_events.
  destruct state; cbn;
    try destruct (ulong (clock_alert env - lastAlertTime g) >=? ALERT_INTERVAL);
    reflexivity.
Qed.

(** ** The dashboard *)

(** X1: the dashboard is rate-limited like the gated alerts, with its own
    timestamp. A pass prints the readings exactly when it is not muted
    and the unsigned difference between the clock read in [loop] and
    [lastSerialUpdate] is at least 1000 ms; it then prints this pass's
    temperature and humidity, in this order and as the sensor returned
    them, and moves [lastSerialUpdate] to that clock value. No other
    pass prints a reading or changes [lastSerialUpdate]. *)
Theorem X1_dashboard_refresh_gate (env : Inputs) (g : Globals) :
  (dashboard_shown (events (loop env) g) = true <->
   unmuted_pass env g = true /\
   SERIAL_REFRESH <= ulong (clock_loop env - lastSerialUpdate g)) /\
  filter is_reading (events (loop env) g)
  = (if dashboard_shown (events (loop env) g)
     then [EPrintFloat (dht_temperature env); EPrintFloat (dht_humidity env)]
     else []) /\
  lastSerialUpdate (after (loop env) g)
  = (if dashboard_shown (events (loop env) g)
     then clock_loop env else lastSerialUpdate g).
Proof.
  assert (Hf : filter is_reading (events (loop env) g)
               = if unmuted_pass env g
                    && (ulong (clock_loop env - lastSerialUpdate g) >=? SERIAL_REFRESH)
                 then [EPrintFloat (dht_temperature env); EPrintFloat (dht_humidity env)]
                 else []).
  { rewrite loop_events. destruct (unmuted_pass env g); cbn [andb].
    - cbv zeta. rewrite !filter_app, playAlert_no_reading.
      destruct (isnan (dht_temperature env) || isnan (dht_humidity env));
        now destruct (ulong (clock_loop env - lastSerialUpdate g) >=? SERIAL_REFRESH).
    - now destruct (pressed env). }
  assert (Hs : dashboard_shown (events (loop env) g)
               = unmuted_pass env g
                 && (ulong (clock_loop env - lastSerialUpdate g) >=? SERIAL_REFRESH)).
  { unfold dashboard_shown. rewrite existsb_by_filter, Hf. now destruct (_ && _). }
  split; [| split].
  - rewrite Hs, andb_true_iff, Z.geb_le. reflexivity.
  - now rewrite Hs.
  - rewrite Hs, loop_after.
    destruct (unmuted_pass env g); [| reflexivity]. cbn.
    now destruct (ulong (clock_loop env - lastSerialUpdate g) >=? SERIAL_REFRESH).
Qed.

(** ** The shared timer *)

(** X2: one timer for all alerts, safe across the rollover of [millis].
    After [playAlert] has fired in any state, the long beep of NEAR
    included, a later call in OPTIMAL or CLOSE whose clock reads [d]
    milliseconds further, modulo 2^32, fires exactly when [d] is at
    least the interval: also when the clock has wrapped in between. *)
Theorem X2_shared_timer_survives_rollover
    (env env' : Inputs) (state state' : AlertState) (g : Globals) (d : Z) :
  fired (events (playAlert env state) g) = true ->
  state' = OPTIMAL \/ state' = CLOSE ->
  0 <= d < 2 ^ 32 ->
  clock_alert env' = ulong (clock_alert env + d) ->
  (fired (events (playAlert env' state') (after (playAlert env state) g)) = true
   <-> ALERT_INTERVAL <= d).
Proof.
  intros Hf Hs Hd Hc.
  rewrite playAlert_fired, playAlert_after, Hf, Hc.
  cbn [lastAlertTime with_lastAlertTime].
  rewrite ulong_elapsed by exact Hd.
  destruct Hs as [-> | ->]; apply Z.geb_le.
Qed.

Lemma X2_witness :
  fired (events (playAlert near_pass NEAR) initial) = true /\
  (OPTIMAL = OPTIMAL \/ OPTIMAL = CLOSE) /\
  0 <= 2000 < 2 ^ 32 /\
  clock_alert optimal_pass_again = ulong (clock_alert near_pass + 2000) /\
  (fired (events (playAlert optimal_pass_again OPTIMAL)
            (after (playAlert near_pass NEAR) initial)) = true
   <-> ALERT_INTERVAL <= 2000).
Proof.
  assert (Hd : 0 <= 2000 < 2 ^ 32) by (split; [discriminate | reflexivity]).
  split; [reflexivity |]. split; [now left |]. split; [exact Hd |].
  split; [reflexivity |].
  exact (X2_shared_timer_survives_rollover near_pass optimal_pass_again
           NEAR OPTIMAL initial 2000 eq_refl (or_introl eq_refl) Hd eq_refl).
Defined.

Lemma loop_chimed_due (env : Inputs) (g : Globals) :
  chimed (events (loop env) g) = true ->
  ALERT_INTERVAL <= ulong (clock_alert env - lastAlertTime g).
Proof.
  unfold chimed. rewrite loop_events.
  destruct (unmuted_pass env g).
  - cbv zeta. rewrite !existsb_app, playAlert_events.
    destruct (isnan (dht_temperature env) || isnan (dht_humidity env));
      destruct (ulong (clock_loop env - lastSerialUpdate g) >=? SERIAL_REFRESH);
      destruct (currentState (after (evaluateState (dht_temperature env)) g));
      destruct (ulong (clock_alert env - lastAlertTime g) >=? ALERT_INTERVAL) eqn:D;
      cbn; intros H; try discriminate H; now apply Z.geb_le.
  - destruct (pressed env); discriminate.
Qed.

Lemma fire_log_spaced (inputs : list Inputs) (g : Globals) (start : Z) :
  0 <= lastAlertTime g <= start ->
  nondecreasing_from start (clock_readings inputs) ->
  clock_in_range inputs ->
  spaced (lastAlertTime g) (fire_log inputs g) /\
  (forall t : Z, In (t, true) (fire_log inputs g) ->
                 lastAlertTime g + ALERT_INTERVAL <= t).
Proof.
  revert g start. induction inputs as [| env rest IH]; intros g start Hg Hc Hr.
  - split; [exact I | intros t []].
  - change (clock_readings (env :: rest))
      with (clock_loop env :: clock_alert env :: clock_readings rest) in Hc.
    unfold clock_in_range in Hr.
    change (clock_readings (env :: rest))
      with (clock_loop env :: clock_alert env :: clock_readings rest) in Hr.
    destruct Hc as (Hl & Ha & Hc).
    apply Forall_inv_tail in Hr. pose proof (Forall_inv Hr) as Hlt.
    apply Forall_inv_tail in Hr.
    pose proof (loop_lastAlertTime env g) as Hstep.
    pose proof (loop_chimed_due env g) as Hdue.
    cbv beta in Hlt.
    unfold ulong in Hdue. change (2 ^ 32) with 4294967296 in Hdue, Hlt.
    rewrite Z.mod_small in Hdue by lia.
    cbn [fire_log].
    destruct (fired (events (loop env) g)); cbn [app].
    + assert (Hg' : 0 <= lastAlertTime (after (loop env) g) <= clock_alert env)
        by (rewrite Hstep; lia).
      destruct (IH (after (loop env) g) (clock_alert env) Hg' Hc Hr) as [Hs Hin].
      rewrite Hstep in Hs, Hin. split.
      * cbn [spaced]. split; [intros Hch; specialize (Hdue Hch); lia | exact Hs].
      * intros t [Heq | Ht].
        -- injection Heq as <- Hch. specialize (Hdue Hch). lia.
        -- specialize (Hin t Ht). lia.
    + assert (Hg' : 0 <= lastAlertTime (after (loop env) g) <= clock_alert env)
        by (rewrite Hstep; lia).
      destruct (IH (after (loop env) g) (clock_alert env) Hg' Hc Hr) as [Hs Hin].
      rewrite Hstep in Hs, Hin. now split.
Qed.

(** X3: gated alerts are at least five seconds apart over a whole run.
    While the clock is monotonic and has not wrapped, every chime or
    short beep a run plays comes at least 5000 ms after the alert
    played before it, the long beeps of NEAR counted; and since the
    timestamp starts at zero, none is played before the clock reads
    5000: a board that boots into the optimal band stays silent for its
    first five seconds. *)
Theorem X3_gated_alerts_five_seconds_apart (inputs : list Inputs) :
  monotonic_clock inputs ->
  clock_in_range inputs ->
  spaced 0 (fire_log inputs (after setup initial)) /\
  (forall t : Z, In (t, true) (fire_log inputs (after setup initial)) ->
                 ALERT_INTERVAL <= t).
Proof.
  intros Hc Hr.
  assert (Hg : 0 <= lastAlertTime (after setup initial) <= 0) by (cbn; lia).
  destruct (fire_log_spaced inputs (after setup initial) 0 Hg Hc Hr) as [Hs Hin].
  split; [exact Hs |]. intros t Ht. specialize (Hin t Ht). cbn in Hin. lia.
Qed.

Lemma X3_witness :
  monotonic_clock [optimal_pass; near_pass; optimal_pass_again] /\
  clock_in_range [optimal_pass; near_pass; optimal_pass_again] /\
  fire_log [optimal_pass; near_pass; optimal_pass_again] (after setup initial)
  = [(6001, true); (7001, false)] /\
  spaced 0 (fire_log [optimal_pass; near_pass; optimal_pass_again]
              (after setup initial)).
Proof.
  assert (Hc : monotonic_clock [optimal_pass; near_pass; optimal_pass_again])
    by (cbn; lia).
  assert (Hr : clock_in_range [optimal_pass; near_pass; optimal_pass_again])
    by (repeat constructor).
  split; [exact Hc |]. split; [exact Hr |]. split; [reflexivity |].
  exact (proj1 (X3_gated_alerts_five_seconds_apart
                  [optimal_pass; near_pass; optimal_pass_again] Hc Hr)).
Defined.

(** ** What a pass depends on *)

Lemma isnan_true (x : float) : isnan x = true -> x = S754_nan.
Proof. now destruct x. Qed.

(** X4: a failed temperature read never sounds the buzzer. In a pass
    that is not muted and whose temperature is NaN, the warning is
    logged, the state becomes IDLE whatever it was, the scheduler
    silences the buzzer, no tone starts and the last-alert timestamp
    is kept. *)
Theorem X4_nan_temperature_never_alerts (env : Inputs) (g : Globals) :
  unmuted_pass env g = true ->
  isnan (dht_temperature env) = true ->
  currentState (after (loop env) g) = IDLE /\
  lastAlertTime (after (loop env) g) = lastAlertTime g /\
  fired (events (loop env) g) = false /\
  count_events is_sensor_warning (events (loop env) g) = 1%nat /\
  filter is_buzzer_call (events (loop env) g) = [ENoTone BUZZER_PIN].
Proof.
  intros Hu Hn. apply isnan_true in Hn.
  assert (Hst : currentState (after (evaluateState (dht_temperature env)) g) = IDLE)
    by now rewrite Hn.
  assert (He := loop_events env g). rewrite Hu in He. cbv zeta in He.
  rewrite Hst, playAlert_events, Hn in He. cbn [isnan orb] in He.
  assert (Ha := loop_after env g). rewrite Hu in Ha. cbv zeta in Ha.
  rewrite Hst, playAlert_fired in Ha.
  rewrite Ha, He. unfold count_events, fired.
  destruct (ulong (clock_loop env - lastSerialUpdate g) >=? SERIAL_REFRESH);
    repeat split.
Qed.

Lemma X4_witness :
  unmuted_pass bad_temperature_pass after_optimal_pass = true /\
  isnan (dht_temperature bad_temperature_pass) = true /\
  currentState (after (loop bad_temperature_pass) after_optimal_pass) = IDLE /\
  fired (events (loop bad_temperature_pass) after_optimal_pass) = false.
Proof.
  split; [reflexivity |]. split; [reflexivity |].
  pose proof (X4_nan_temperature_never_alerts bad_temperature_pass
                after_optimal_pass eq_refl eq_refl) as (Hs & _ & Hf & _).
  exact (conj Hs Hf).
Defined.

(** X5: the comfort state has no memory. After a pass that is not muted
    [currentState] is what [evaluateState] makes of the temperature of
    this pass: two such passes with the same temperature end in the same
    state, whatever the globals, the humidity and the clock were. *)
Theorem X5_state_depends_on_temperature_only
    (env1 env2 : Inputs) (g1 g2 : Globals) :
  unmuted_pass env1 g1 = true ->
  unmuted_pass env2 g2 = true ->
  dht_temperature env1 = dht_temperature env2 ->
  currentState (after (loop env1) g1) = currentState (after (loop env2) g2).
Proof.
  intros H1 H2 Ht. rewrite !loop_after, H1, H2. cbn [currentState].
  rewrite Ht. apply evaluateState_state.
Qed.

Lemma X5_witness :
  unmuted_pass near_pass initial = true /\
  unmuted_pass humid_near_pass after_optimal_pass = true /\
  dht_temperature near_pass = dht_temperature humid_near_pass /\
  currentState (after (loop near_pass) initial)
  = currentState (after (loop humid_near_pass) after_optimal_pass).
Proof.
  split; [reflexivity |]. split; [reflexivity |]. split; [reflexivity |].
  exact (X5_state_depends_on_temperature_only near_pass humid_near_pass
           initial after_optimal_pass eq_refl eq_refl eq_refl).
Defined.

(** X6: the humidity reaches the dashboard and the failure check only.
    Two passes from the same globals that differ in the humidity alone
    leave the same globals and make the same buzzer calls: the
    classifier and the scheduler never look at the humidity, not even
    to see that it is NaN. *)
Theorem X6_humidity_does_not_reach_the_alerts (env1 env2 : Inputs) (g : Globals) :
  button env1 = button env2 ->
  dht_temperature env1 = dht_temperature env2 ->
  clock_loop env1 = clock_loop env2 ->
  clock_alert env1 = clock_alert env2 ->
  after (loop env1) g = after (loop env2) g /\
  filter is_buzzer_call (events (loop env1) g)
  = filter is_buzzer_call (events (loop env2) g).
Proof.
  intros Hb Ht Hl Ha.
  assert (Hu : unmuted_pass env1 g = unmuted_pass env2 g)
    by (unfold unmuted_pass, pressed; now rewrite Hb).
  assert (Hp : forall st, events (playAlert env1 st) g = events (playAlert env2 st) g)
    by (intros st; now rewrite !playAlert_events, Ha).
  split.
  - rewrite !loop_after, Hu. cbv zeta. rewrite Ht, Hl, Ha, Hp. reflexivity.
  - rewrite !loop_events, Hu. destruct (unmuted_pass env2 g).
    + cbv zeta. rewrite !filter_app, Ht, Hl, Hp.
      destruct (ulong (clock_loop env2 - lastSerialUpdate g) >=? SERIAL_REFRESH);
        destruct (isnan (dht_temperature env2) || isnan (dht_humidity env1));
        destruct (isnan (dht_temperature env2) || isnan (dht_humidity env2));
        reflexivity.
    + unfold pressed. rewrite Hb. now destruct (button env2).
Qed.

Lemma X6_witness :
  button near_pass = button bad_humidity_pass /\
  dht_temperature near_pass = dht_temperature bad_humidity_pass /\
  clock_loop near_pass = clock_loop bad_humidity_pass /\
  clock_alert near_pass = clock_alert bad_humidity_pass /\
  after (loop near_pass) after_optimal_pass
  = after (loop bad_humidity_pass) after_optimal_pass.
Proof.
  do 4 (split; [reflexivity |]).
  exact (proj1 (X6_humidity_does_not_reach_the_alerts near_pass bad_humidity_pass
                  after_optimal_pass eq_refl eq_refl eq_refl eq_refl)).
Defined.

(** ** Time spent waiting *)

Lemma delay_total_app (evs1 evs2 : list Event) :
  delay_total (evs1 ++ evs2) = delay_total evs1 + delay_total evs2.
Proof.
  induction evs1 as [| e evs1 IH]; [reflexivity |].
  cbn [app delay_total fold_right]. fold (delay_total (evs1 ++ evs2)).
  fold (delay_total evs1). rewrite IH. destruct e; lia.
Qed.

(** X7: how long a pass blocks. The delays of a muted pass add up to
    500 ms; those of any other pass to 300 ms, plus 2000 ms when either
    sensor channel is NaN, plus 5000 ms when the temperature classifies
    as NEAR. So the button is read again after 300 ms of waiting at the
    least and 7300 ms at the most. *)
Theorem X7_blocking_time_of_a_pass (env : Inputs) (g : Globals) :
  delay_total (events (loop env) g)
  = (if unmuted_pass env g then
       300
       + (if isnan (dht_temperature env) || isnan (dht_humidity env)
          then 2000 else 0)
       + (if AlertState_eqb
               (currentState (after (evaluateState (dht_temperature env)) g)) NEAR
          then 5000 else 0)
     else 500) /\
  300 <= delay_total (events (loop env) g) <= 7300.
Proof.
  assert (H : delay_total (events (loop env) g)
              = (if unmuted_pass env g then
                   300
                   + (if isnan (dht_temperature env) || isnan (dht_humidity env)
                      then 2000 else 0)
                   + (if AlertState_eqb
                           (currentState (after (evaluateState (dht_temperature env)) g))
                           NEAR
                      then 5000 else 0)
                 else 500)).
  { rewrite loop_events. destruct (unmuted_pass env g).
    - cbv zeta. rewrite !delay_total_app, playAlert_events.
      destruct (isnan (dht_temperature env) || isnan (dht_humidity env));
        destruct (ulong (clock_loop env - lastSerialUpdate g) >=? SERIAL_REFRESH);
        destruct (currentState (after (evaluateState (dht_temperature env)) g));
        try destruct (ulong (clock_alert env - lastAlertTime g) >=? ALERT_INTERVAL);
        reflexivity.
    - now destruct (pressed env). }
  split; [exact H |]. rewrite H.
  destruct (unmuted_pass env g); [| lia].
  destruct (isnan (dht_temperature env) || isnan (dht_humidity env));
    destruct (AlertState_eqb _ NEAR); lia.
Qed.

(** ** What a run never does *)

Lemma run_events_forall (p : Event -> bool) :
  (forall (env : Inputs) (g : Globals), forallb p (events (loop env) g) = true) ->
  forall (inputs : list Inputs) (g : Globals),
    forallb p (events (run inputs) g) = true.
Proof.
  intros Hp inputs. induction inputs as [| env rest IH]; intros g; [reflexivity |].
  cbn [run]. now rewrite events_bind, forallb_app, Hp, IH.
Qed.

Lemma loop_pass_calls (env : Inputs) (g : Globals) :
  forallb pass_call (events (loop env) g) = true.
Proof.
  rewrite loop_events. destruct (unmuted_pass env g).
  - cbv zeta. rewrite !forallb_app, playAlert_events.
    destruct (isnan (dht_temperature env) || isnan (dht_humidity env));
      destruct (ulong (clock_loop env - lastSerialUpdate g) >=? SERIAL_REFRESH);
      destruct (currentState (after (evaluateState (dht_temperature env)) g));
      try destruct (ulong (clock_alert env - lastAlertTime g) >=? ALERT_INTERVAL);
      reflexivity.
  - now destruct (pressed env).
Qed.

(** X8: what the passes of a run never do. Whatever the inputs, every
    tone is played on the buzzer pin and is the 1500 Hz chime of 200 ms,
    the 1000 Hz beep of 200 ms or the 1000 Hz tone without duration;
    [noTone] is called on the buzzer pin only and [digitalRead] on the
    button pin only; and no pass configures a pin, the serial port or
    the sensor again, which [setup] did once before the first pass. *)
Theorem X8_passes_use_the_two_pins_and_three_tones (inputs : list Inputs) (g : Globals) :
  forallb pass_call (events (run inputs) g) = true /\
  events (sketch inputs) g = events setup g ++ events (run inputs) g /\
  filter (fun e => negb (pass_call e)) (events setup g)
  = [EPinMode BUZZER_PIN OUTPUT; EPinMode BUTTON_PIN INPUT_PULLUP;
     ESerialBegin 9600; EDhtBegin].
Proof.
  split; [| split].
  - apply run_events_forall, loop_pass_calls.
  - unfold sketch. now rewrite events_bind.
  - reflexivity.
Qed.

Lemma open_tone_app (start : bool) (evs1 evs2 : list Event) :
  open_tone start (evs1 ++ evs2) = open_tone (open_tone start evs1) evs2.
Proof. apply fold_left_app. Qed.

Lemma loop_open_tone (env : Inputs) (g : Globals) :
  open_tone false (events (loop env) g) = false.
Proof.
  rewrite loop_events. destruct (unmuted_pass env g).
  - cbv zeta. rewrite !open_tone_app, playAlert_events.
    destruct (isnan (dht_temperature env) || isnan (dht_humidity env));
      destruct (ulong (clock_loop env - lastSerialUpdate g) >=? SERIAL_REFRESH);
      destruct (currentState (after (evaluateState (dht_temperature env)) g));
      try destruct (ulong (clock_alert env - lastAlertTime g) >=? ALERT_INTERVAL);
      reflexivity.
  - now destruct (pressed env).
Qed.

(** X9: the long beep is always stopped. The only tone started without
    a duration is the one of [soundLongBeep], and [noTone] follows it
    in the same pass: at the end of every pass, and so of every run from
    boot, no such tone is left waiting for its [noTone]; and a muted
    pass stops one that was sounding when it began. *)
Theorem X9_no_tone_left_sounding (inputs : list Inputs) (env : Inputs) (g : Globals) :
  open_tone false (events (loop env) g) = false /\
  open_tone false (events (sketch inputs) initial) = false /\
  (unmuted_pass env g = false -> open_tone true (events (loop env) g) = false).
Proof.
  split; [apply loop_open_tone | split].
  - unfold sketch. rewrite events_bind, open_tone_app.
    change (open_tone false (events setup initial)) with false.
    generalize (after setup initial). induction inputs as [| e rest IH]; intros g0.
    + reflexivity.
    + cbn [run]. now rewrite events_bind, open_tone_app, loop_open_tone.
  - intros Hu. rewrite loop_events, Hu. now destruct (pressed env).
Qed.

Lemma X9_witness :
  unmuted_pass near_pass after_press = false /\
  open_tone true (events (loop near_pass) after_press) = false.
Proof.
  split; [reflexivity |].
  exact (proj2 (proj2 (X9_no_tone_left_sounding [] near_pass after_press)) eq_refl).
Defined.

(** ** Temperatures outside the table *)

(** X10: what falls to IDLE. On every binary32 value [evaluateState]
    assigns IDLE exactly when the value is NaN, an infinity, or a number
    below 20 or above 26; so an infinite reading, which [readSensors]
    lets through without a warning, is treated like a temperature out
    of range and never as an alerting state. *)
Theorem X10_idle_outside_the_near_band (t : float) (g : Globals) :
  valid_float t = true ->
  (currentState (after (evaluateState t) g) = IDLE <->
   is_finite t = false \/ (to_Q t < 20)%Q \/ (26 < to_Q t)%Q) /\
  (is_finite t = false -> isnan t = false ->
   forall env : Inputs,
     dht_temperature env = t -> isnan (dht_humidity env) = false ->
     unmuted_pass env g = true ->
     count_events is_sensor_warning (events (loop env) g) = 0%nat /\
     currentState (after (loop env) g) = IDLE /\
     fired (events (loop env) g) = false).
Proof.
  intros Hv. split.
  - destruct (is_finite t) eqn:Hf.
    + destruct (Classifier.evaluateState_table t Hv Hf g) as (_ & _ & _ & Hi).
      rewrite Hi. split; [auto | intros [H | H]; [discriminate | exact H]].
    + split; [auto | intros _].
      destruct t as [s | s | | s m e]; try discriminate; [destruct s |]; reflexivity.
  - intros Hf Hn env Ht Hh Hu.
    assert (Hst : currentState (after (evaluateState (dht_temperature env)) g) = IDLE).
    { rewrite Ht. destruct t as [s | s | | s m e]; try discriminate.
      destruct s; reflexivity. }
    assert (He := loop_events env g). rewrite Hu in He. cbv zeta in He.
    rewrite Hst, playAlert_events, Ht, Hn, Hh in He. cbn [orb] in He.
    assert (Ha := loop_after env g). rewrite Hu in Ha. cbv zeta in Ha.
    rewrite Hst in Ha. rewrite Ha, He. unfold count_events, fired.
    destruct (ulong (clock_loop env - lastSerialUpdate g) >=? SERIAL_REFRESH);
      repeat split.
Qed.

Lemma X10_witness :
  valid_float (S754_infinity false) = true /\
  is_finite (S754_infinity false) = false /\
  isnan (S754_infinity false) = false /\
  dht_temperature infinite_pass = S754_infinity false /\
  isnan (dht_humidity infinite_pass) = false /\
  unmuted_pass infinite_pass after_optimal_pass = true /\
  count_events is_sensor_warning (events (loop infinite_pass) after_optimal_pass) = 0%nat /\
  currentState (after (loop infinite_pass) after_optimal_pass) = IDLE /\
  fired (events (loop infinite_pass) after_optimal_pass) = false.
Proof.
  do 6 (split; [reflexivity |]).
  exact (proj2 (X10_idle_outside_the_near_band (S754_infinity false)
                  after_optimal_pass eq_refl)
           eq_refl eq_refl infinite_pass eq_refl eq_refl eq_refl).
Defined.

(** ** Polling *)

Lemma count_events_app (p : Event -> bool) (evs1 evs2 : list Event) :
  count_events p (evs1 ++ evs2) = (count_events p evs1 + count_events p evs2)%nat.
Proof. unfold count_events. now rewrite filter_app, length_app. Qed.

Lemma loop_polling (env : Inputs) (g : Globals) :
  count_events is_button_read (events (loop env) g) = 1%nat /\
  filter is_sensor_read (events (loop env) g)
  = (if unmuted_pass env g
     then [EReadTemperature (dht_temperature env); EReadHumidity (dht_humidity env)]
     else []) /\
  count_events is_sensor_warning (events (loop env) g)
  = (if unmuted_pass env g
        && (isnan (dht_temperature env) || isnan (dht_humidity env))
     then 1%nat else 0%nat).
Proof.
  rewrite loop_events. unfold count_events. destruct (unmuted_pass env g).
  - cbv zeta. rewrite !filter_app, playAlert_events.
    destruct (isnan (dht_temperature env) || isnan (dht_humidity env));
      destruct (ulong (clock_loop env - lastSerialUpdate g) >=? SERIAL_REFRESH);
      destruct (currentState (after (evaluateState (dht_temperature env)) g));
      try destruct (ulong (clock_alert env - lastAlertTime g) >=? ALERT_INTERVAL);
      repeat split.
  - destruct (pressed env); repeat split.
Qed.

(** X11: the polling discipline. Every pass reads the button exactly
    once and before anything else, so a run of n passes reads it n
    times; a pass reads the sensor, temperature first and humidity
    second, exactly when it is not muted; and it logs the sensor
    warning once when it is not muted and a channel is NaN, and not at
    all otherwise. *)
Theorem X11_one_button_read_per_pass (inputs : list Inputs) (env : Inputs) (g : Globals) :
  hd_error (events (loop env) g) = Some (EDigitalRead BUTTON_PIN (button env)) /\
  count_events is_button_read (events (loop env) g) = 1%nat /\
  count_events is_button_read (events (run inputs) g) = List.length inputs /\
  filter is_sensor_read (events (loop env) g)
  = (if unmuted_pass env g
     then [EReadTemperature (dht_temperature env); EReadHumidity (dht_humidity env)]
     else []) /\
  count_events is_sensor_warning (events (loop env) g)
  = (if unmuted_pass env g
        && (isnan (dht_temperature env) || isnan (dht_humidity env))
     then 1%nat else 0%nat).
Proof.
  destruct (loop_polling env g) as (Hb & Hs & Hw).
  split; [| split; [exact Hb | split; [| split; [exact Hs | exact Hw]]]].
  - rewrite loop_events. destruct (unmuted_pass env g) eqn:Hu; [| reflexivity].
    apply unmuted_pass_true in Hu. destruct Hu as [_ ->]. reflexivity.
  - clear Hb Hs Hw. revert g.
    induction inputs as [| e rest IH]; intros g; [reflexivity |].
    cbn [run List.length]. rewrite events_bind, count_events_app, IH.
    now destruct (loop_polling e g) as (-> & _).
Qed.

(** ** The dashboard over a run *)

Lemma loop_dashboard (env : Inputs) (g : Globals) :
  dashboard_shown (events (loop env) g)
  = unmuted_pass env g
    && (ulong (clock_loop env - lastSerialUpdate g) >=? SERIAL_REFRESH) /\
  lastSerialUpdate (after (loop env) g)
  = (if dashboard_shown (events (loop env) g)
     then clock_loop env else lastSerialUpdate g).
Proof.
  assert (Hs : dashboard_shown (events (loop env) g)
               = unmuted_pass env g
                 && (ulong (clock_loop env - lastSerialUpdate g) >=? SERIAL_REFRESH)).
  { unfold dashboard_shown. rewrite loop_events. destruct (unmuted_pass env g).
    - cbv zeta. rewrite !existsb_app, existsb_by_filter, existsb_by_filter.
      rewrite (existsb_by_filter _ (events (playAlert _ _) _)), playAlert_no_reading.
      destruct (isnan (dht_temperature env) || isnan (dht_humidity env));
        now destruct (ulong (clock_loop env - lastSerialUpdate g) >=? SERIAL_REFRESH).
    - now destruct (pressed env). }
  split; [exact Hs |]. rewrite Hs, loop_after.
  destruct (unmuted_pass env g); [| reflexivity]. cbn.
  now destruct (ulong (clock_loop env - lastSerialUpdate g) >=? SERIAL_REFRESH).
Qed.

Lemma refresh_log_apart (inputs : list Inputs) (g : Globals) (start : Z) :
  0 <= lastSerialUpdate g <= start ->
  nondecreasing_from start (clock_readings inputs) ->
  clock_in_range inputs ->
  apart SERIAL_REFRESH (lastSerialUpdate g) (refresh_log inputs g).
Proof.
  revert g start. induction inputs as [| env rest IH]; intros g start Hg Hc Hr.
  - exact I.
  - change (clock_readings (env :: rest))
      with (clock_loop env :: clock_alert env :: clock_readings rest) in Hc.
    unfold clock_in_range in Hr.
    change (clock_readings (env :: rest))
      with (clock_loop env :: clock_alert env :: clock_readings rest) in Hr.
    destruct Hc as (Hl & Ha & Hc).
    pose proof (Forall_inv Hr) as Hlt. cbv beta in Hlt.
    apply Forall_inv_tail, Forall_inv_tail in Hr.
    destruct (loop_dashboard env g) as [Hs Hstep].
    cbn [refresh_log].
    destruct (dashboard_shown (events (loop env) g)); cbn [app].
    + symmetry in Hs. apply andb_true_iff in Hs. destruct Hs as [_ Hdue].
      apply Z.geb_le in Hdue. unfold ulong in Hdue.
      change (2 ^ 32) with 4294967296 in Hdue, Hlt.
      rewrite Z.mod_small in Hdue by lia.
      assert (Hg' : 0 <= lastSerialUpdate (after (loop env) g) <= clock_alert env)
        by (rewrite Hstep; lia).
      pose proof (IH (after (loop env) g) (clock_alert env) Hg' Hc Hr) as Hrest.
      rewrite Hstep in Hrest. cbn [apart]. split; [lia | exact Hrest].
    + assert (Hg' : 0 <= lastSerialUpdate (after (loop env) g) <= clock_alert env)
        by (rewrite Hstep; lia).
      pose proof (IH (after (loop env) g) (clock_alert env) Hg' Hc Hr) as Hrest.
      now rewrite Hstep in Hrest.
Qed.

(** X12: the dashboard is printed at most once a second over a whole
    run. While the clock is monotonic and has not wrapped, the passes
    that print the readings are at least 1000 ms apart by the clock read
    in [loop], and the first of them comes when that clock reads 1000 or
    more. *)
Theorem X12_dashboards_one_second_apart (inputs : list Inputs) :
  monotonic_clock inputs ->
  clock_in_range inputs ->
  apart SERIAL_REFRESH 0 (refresh_log inputs (after setup initial)).
Proof.
  intros Hc Hr.
  assert (Hg : 0 <= lastSerialUpdate (after setup initial) <= 0) by (cbn; lia).
  exact (refresh_log_apart inputs (after setup initial) 0 Hg Hc Hr).
Qed.

Lemma X12_witness :
  monotonic_clock [optimal_pass; near_pass; optimal_pass_again] /\
  clock_in_range [optimal_pass; near_pass; optimal_pass_again] /\
  refresh_log [optimal_pass; near_pass; optimal_pass_again]
    (after setup initial) = [6000; 7000; 9000] /\
  apart SERIAL_REFRESH 0
    (refresh_log [optimal_pass; near_pass; optimal_pass_again]
       (after setup initial)).
Proof.
  assert (Hc : monotonic_clock
                 [optimal_pass; near_pass; optimal_pass_again])
    by (cbn; lia).
  assert (Hr : clock_in_range
                 [optimal_pass; near_pass; optimal_pass_again])
    by (repeat constructor).
  split; [exact Hc |]. split; [exact Hr |]. split; [reflexivity |].
  exact (X12_dashboards_one_second_apart
           [optimal_pass; near_pass; optimal_pass_again] Hc Hr).
Defined.
